(** * Inventory-Management: the product routes of [backend/routes/inventory.js]

    A shallow embedding of the four mutating handlers of the router
    ([POST /], [PUT /:id], [DELETE /:id], [POST /:id/adjust]) and of
    [logAudit], over an explicit model of the MySQL store they talk to.

    The handlers are state transformers on a [world]: the committed tables,
    the rows seen by the transaction that the handler's connection has
    open, and the trace of every call made on the pool and the connection.
    Any call between [try] and [catch] may throw; which ones do is a
    parameter ([fails]), and so is the one fact about the schema that the
    handlers' own checks overlap with, a UNIQUE index on [products.sku]
    ([unique_sku]).

    Conventions of the model:
    - JavaScript numbers are integers ([Z]); fractional and non-finite
      doubles are not represented.
    - [req.params.id] is the integer that the route segment denotes; where
      the handler passes it on as a JavaScript value it is the (non-empty)
      decimal string of that integer.
    - the [products] table has typed columns, following the column list of
      the INSERT statement; a parameter of another JSON type is refused by
      the statement.  Text is compared for exact equality, and a [NaN]
      parameter matches no row.
    - the generated ids are not given back by a rollback.
    - the handlers run one after the other: a handler's transaction sees
      the committed rows and nobody else writes meanwhile. *)

From Stdlib Require Import ZArith Lia Ascii String.
From stdpp Require Import base strings gmap list pretty sorting.

Open Scope Z_scope.

(** ** JavaScript values *)

Inductive jsval :=
  | JUndefined
  | JNull
  | JBool (b : bool)
  | JNum (n : Z)
  | JStr (s : string).

#[global] Instance jsval_eq_dec : EqDecision jsval.
Proof. solve_decision. Defined.

(** ToBoolean: what [if (v)], [!v] and [v || w] look at. *)
Definition truthy (v : jsval) : bool :=
  match v with
  | JUndefined | JNull => false
  | JBool b => b
  | JNum n => negb (n =? 0)
  | JStr s => negb (String.eqb s "")
  end.

(** [a || b] *)
Definition js_or (a b : jsval) : jsval := if truthy a then a else b.

(** [typeof v === 'number'] *)
Definition is_number (v : jsval) : bool :=
  match v with JNum _ => true | _ => false end.

(** A parsed JSON object: [req.body], [req.query]. *)
Abbreviation jsobject := (gmap string jsval).

(** [o.key]: [undefined] when the property is absent. *)
Definition get (o : jsobject) (key : string) : jsval :=
  default JUndefined (o !! key).

(** [o.hasOwnProperty(key)] *)
Definition hasOwnProperty (o : jsobject) (key : string) : bool :=
  bool_decide (is_Some (o !! key)).

(** Destructuring with a default, [{ key = d } = o]: the default is taken
    when the property is [undefined]. *)
Definition get_default (o : jsobject) (key : string) (d : jsval) : jsval :=
  match get o key with JUndefined => d | v => v end.

(** *** [parseInt] with no radix argument *)

Definition is_space (c : ascii) : bool :=
  let n := Z.of_nat (nat_of_ascii c) in
  (n =? 32) || ((9 <=? n) && (n <=? 13)).

Definition digit_value (c : ascii) : option Z :=
  let n := Z.of_nat (nat_of_ascii c) in
  if (48 <=? n) && (n <=? 57) then Some (n - 48)
  else if (97 <=? n) && (n <=? 122) then Some (n - 87)
  else if (65 <=? n) && (n <=? 90) then Some (n - 55)
  else None.

Fixpoint skip_spaces (s : string) : string :=
  match s with
  | String c s' => if is_space c then skip_spaces s' else s
  | EmptyString => s
  end.

(** The longest prefix of digits below [radix]; [None] when it is empty
    (the result is then [NaN]). *)
Fixpoint parse_digits (radix : Z) (s : string) (acc : option Z) : option Z :=
  match s with
  | String c s' =>
      match digit_value c with
      | Some d =>
          if d <? radix
          then parse_digits radix s' (Some (radix * default 0 acc + d))
          else acc
      | None => acc
      end
  | EmptyString => acc
  end.

Definition parse_unsigned (s : string) : option Z :=
  match s with
  | String "0" (String "x" s') | String "0" (String "X" s') =>
      parse_digits 16 s' None
  | _ => parse_digits 10 s None
  end.

Definition parseInt_string (s : string) : option Z :=
  match skip_spaces s with
  | String "-" s' => Z.opp <$> parse_unsigned s'
  | String "+" s' => parse_unsigned s'
  | s' => parse_unsigned s'
  end.

(** [parseInt(v)]; [None] is [NaN].  The argument is first converted to a
    string: ["undefined"], ["null"], ["true"] and ["false"] have no digit. *)
Definition parseInt (v : jsval) : option Z :=
  match v with
  | JNum n => Some n
  | JStr s => parseInt_string s
  | JUndefined | JNull | JBool _ => None
  end.

(** A number-or-NaN handed on as a value ([NaN] finds no row and is never
    stored: the handler replaces it by [null]). *)
Definition of_parsed (n : option Z) : jsval :=
  match n with Some k => JNum k | None => JNull end.

(** ** The store *)

(** Rows of [products], with the columns of the INSERT statement. *)
Module Products.

Record row := {
  id : Z;
  product_name : string;
  sku : string;
  category_id : option Z;
  supplier_id : option Z;
  quantity : Z;
  price : Z;
  location : option string
}.

#[global] Instance row_eq_dec : EqDecision row.
Proof. solve_decision. Defined.

End Products.

(** The argument of [JSON.stringify] in [logAudit]: an object literal whose
    properties are values or, for [updated_fields], the request body. *)
Inductive json :=
  | JVal (v : jsval)
  | JObject (o : jsobject).

#[global] Instance json_eq_dec : EqDecision json.
Proof. solve_decision. Defined.

(** [JSON.stringify] of an object literal, kept structured: a property
    whose value is [undefined] is left out. *)
Definition JSON_stringify (fields : list (string * json)) : list (string * json) :=
  filter (λ kv, kv.2 ≠ JVal JUndefined) fields.

(** Rows of [inventory_audit]: the four parameters of the INSERT. *)
Module Audit.

Record row := {
  product_id : jsval;
  action : string;
  changed_by : jsval;
  change_details : list (string * json)
}.

End Audit.

(** The calls a handler makes on the pool [db] and on its connection. *)
Inductive call :=
  | GetConnection
  | BeginTransaction
  | SelectProducts
  | SelectCategories
  | SelectSuppliers
  | InsertProduct
  | UpdateProduct
  | DeleteProduct
  | InsertAudit
  | Commit
  | Rollback
  | Release.

#[global] Instance call_eq_dec : EqDecision call.
Proof. solve_decision. Defined.

(** The state of the database server and of the handler's connection. *)
Record world := {
  products : list Products.row;      (* committed rows *)
  categories : list Z;               (* ids of [categories] *)
  suppliers : list Z;                (* ids of [suppliers] *)
  inventory_audit : list Audit.row;  (* committed rows, oldest first *)
  auto_increment : Z;                (* next generated product id *)
  conn : option (list Products.row); (* rows seen by the open transaction *)
  trace : list call                  (* every call made so far *)
}.

(** What lies outside the repository: whether [products.sku] carries a
    UNIQUE index, and which calls the store fails (it then throws). *)
Record env := {
  unique_sku : bool;
  fails : call → bool
}.

Definition no_faults : call → bool := λ _, false.

Definition set_products (t : list Products.row) (w : world) : world :=
  {| products := t; categories := categories w; suppliers := suppliers w;
     inventory_audit := inventory_audit w; auto_increment := auto_increment w;
     conn := conn w; trace := trace w |}.

Definition set_inventory_audit (a : list Audit.row) (w : world) : world :=
  {| products := products w; categories := categories w; suppliers := suppliers w;
     inventory_audit := a; auto_increment := auto_increment w;
     conn := conn w; trace := trace w |}.

Definition set_auto_increment (n : Z) (w : world) : world :=
  {| products := products w; categories := categories w; suppliers := suppliers w;
     inventory_audit := inventory_audit w; auto_increment := n;
     conn := conn w; trace := trace w |}.

Definition set_conn (c : option (list Products.row)) (w : world) : world :=
  {| products := products w; categories := categories w; suppliers := suppliers w;
     inventory_audit := inventory_audit w; auto_increment := auto_increment w;
     conn := c; trace := trace w |}.

Definition log (c : call) (w : world) : world :=
  {| products := products w; categories := categories w; suppliers := suppliers w;
     inventory_audit := inventory_audit w; auto_increment := auto_increment w;
     conn := conn w; trace := trace w ++ [c] |}.

(** The rows a statement on the connection reads and writes. *)
Definition view (w : world) : list Products.row :=
  match conn w with Some t => t | None => products w end.

Definition set_view (t : list Products.row) (w : world) : world :=
  match conn w with
  | Some _ => set_conn (Some t) w
  | None => set_products t w   (* autocommit *)
  end.

(** *** Binding a parameter to a column *)

Definition bind_text (v : jsval) : option string :=
  match v with JStr s => Some s | _ => None end.

Definition bind_int (v : jsval) : option Z :=
  match v with JNum n => Some n | _ => None end.

Definition bind_nullable {A} (f : jsval → option A) (v : jsval) : option (option A) :=
  match v with JNull => Some None | _ => Some <$> f v end.

(** [SET col = ?] on one row; [None] when the column is unknown or the
    parameter does not fit. *)
Definition assign (r : Products.row) (col : string) (v : jsval) : option Products.row :=
  let '(Products.Build_row i n s c sp q p l) := r in
  if decide (col = "product_name") then
    (λ x, Products.Build_row i x s c sp q p l) <$> bind_text v
  else if decide (col = "sku") then
    (λ x, Products.Build_row i n x c sp q p l) <$> bind_text v
  else if decide (col = "category_id") then
    (λ x, Products.Build_row i n s x sp q p l) <$> bind_nullable bind_int v
  else if decide (col = "supplier_id") then
    (λ x, Products.Build_row i n s c x q p l) <$> bind_nullable bind_int v
  else if decide (col = "quantity") then
    (λ x, Products.Build_row i n s c sp x p l) <$> bind_int v
  else if decide (col = "price") then
    (λ x, Products.Build_row i n s c sp q x l) <$> bind_int v
  else if decide (col = "location") then
    (λ x, Products.Build_row i n s c sp q p x) <$> bind_nullable bind_text v
  else None.

Fixpoint assign_all (r : Products.row) (sets : list (string * jsval)) : option Products.row :=
  match sets with
  | [] => Some r
  | (col, v) :: rest => r' ← assign r col v; assign_all r' rest
  end.

(** *** The statements, as functions on the table *)

(** [SELECT id FROM products WHERE sku = ?] *)
Definition select_sku (v : jsval) (t : list Products.row) : list Products.row :=
  filter (λ r, JStr (Products.sku r) = v) t.

(** [SELECT id FROM products WHERE sku = ? AND id <> ?] *)
Definition select_sku_other (v : jsval) (i : Z) (t : list Products.row) : list Products.row :=
  filter (λ r, JStr (Products.sku r) = v ∧ Products.id r ≠ i) t.

(** [SELECT ... FROM products WHERE id = ?] *)
Definition select_id (i : Z) (t : list Products.row) : list Products.row :=
  filter (λ r, Products.id r = i) t.

(** [SELECT id FROM categories WHERE id = ?] (and [suppliers]) *)
Definition select_ref (v : option Z) (ids : list Z) : list Z :=
  match v with
  | Some k => filter (λ i, i = k) ids
  | None => []
  end.

(** The UNIQUE index on [sku], when the table has one. *)
Definition sku_index_ok (e : env) (t : list Products.row) : bool :=
  if unique_sku e then bool_decide (NoDup (Products.sku <$> t)) else true.

(** [UPDATE products SET ... WHERE id = ?]: the new table, or [None] when
    a matched row cannot take the values. *)
Fixpoint update_rows (sets : list (string * jsval)) (i : Z) (t : list Products.row)
  : option (list Products.row) :=
  match t with
  | [] => Some []
  | r :: t' =>
      r' ← (if decide (Products.id r = i) then assign_all r sets else Some r);
      t'' ← update_rows sets i t';
      Some (r' :: t'')
  end.

(** [DELETE FROM products WHERE id = ?] *)
Definition delete_id (i : Z) (t : list Products.row) : list Products.row :=
  filter (λ r, Products.id r ≠ i) t.

(** [INSERT INTO products (product_name, sku, category_id, supplier_id,
    quantity, price, location) VALUES (?, ?, ?, ?, ?, ?, ?)]: the row that
    the seven parameters make, under the generated id. *)
Definition bind_row (newid : Z) (params : list jsval) : option Products.row :=
  match params with
  | [n; s; c; sp; q; p; l] =>
      n' ← bind_text n;
      s' ← bind_text s;
      c' ← bind_nullable bind_int c;
      sp' ← bind_nullable bind_int sp;
      q' ← bind_int q;
      p' ← bind_int p;
      l' ← bind_nullable bind_text l;
      Some (Products.Build_row newid n' s' c' sp' q' p' l')
  | _ => None
  end.

(** ** Handlers as state transformers that may throw *)

(** A computation between [try] and [catch]: [None] is a thrown error. *)
Definition M (A : Type) : Type := world → option A * world.

Definition ret {A} (a : A) : M A := λ w, (Some a, w).

Definition bind {A B} (m : M A) (k : A → M B) : M B :=
  λ w, match m w with
       | (Some a, w') => k a w'
       | (None, w') => (None, w')
       end.

Notation "x <- m ;; k" := (bind m (λ x, k))
  (at level 100, m at next level, right associativity).
Notation "m ;; k" := (bind m (λ _, k))
  (at level 100, right associativity).

(** Every call on the store is recorded, and throws when the store fails it. *)
Definition attempt (e : env) (c : call) : M unit :=
  λ w, (if fails e c then None else Some tt, log c w).

(** [try { body } catch (err) { handler } finally { finalizer }], where an
    early [return] inside [body] is a result of [body]. *)
Definition try_catch_finally {A} (body : M A)
    (handler : world → A * world) (finalizer : world → world)
  : world → A * world :=
  λ w, let '(a, w') := match body w with
                       | (Some a, w1) => (a, w1)
                       | (None, w1) => handler w1
                       end in
       (a, finalizer w').

(** *** The connection *)

(** [db.getConnection()], [conn.rollback()] and [conn.release()] are taken
    not to throw: the handlers call them outside [try] or inside [catch]
    and [finally]. *)
Definition getConnection (w : world) : world := log GetConnection w.

Definition rollback (w : world) : world := set_conn None (log Rollback w).

Definition release (w : world) : world := log Release w.

Definition beginTransaction (e : env) : M unit :=
  attempt e BeginTransaction ;;
  λ w, (Some tt, set_conn (Some (products w)) w).

Definition commit (e : env) : M unit :=
  attempt e Commit ;;
  λ w, (Some tt, set_conn None (set_products (view w) w)).

(** [conn.execute] of a SELECT on [products]. *)
Definition select {A} (e : env) (f : list Products.row → A) : M A :=
  attempt e SelectProducts ;;
  λ w, (Some (f (view w)), w).

(** [conn.execute] of the INSERT; the result is [result.insertId]. *)
Definition execute_insert (e : env) (params : list jsval) : M Z :=
  attempt e InsertProduct ;;
  λ w, match bind_row (auto_increment w) params with
       | Some r =>
           let t := view w ++ [r] in
           if sku_index_ok e t
           then (Some (auto_increment w),
                 set_auto_increment (auto_increment w + 1) (set_view t w))
           else (None, w)
       | None => (None, w)
       end.

(** [conn.execute] of an UPDATE; the result is [result.affectedRows], the
    number of rows that [WHERE id = ?] matches (the driver connects with
    the FOUND_ROWS flag by default). *)
Definition execute_update (e : env) (sets : list (string * jsval)) (i : Z) : M Z :=
  attempt e UpdateProduct ;;
  λ w, match update_rows sets i (view w) with
       | Some t =>
           if sku_index_ok e t
           then (Some (Z.of_nat (length (select_id i (view w)))), set_view t w)
           else (None, w)
       | None => (None, w)
       end.

(** [conn.execute] of the DELETE. *)
Definition execute_delete (e : env) (i : Z) : M unit :=
  attempt e DeleteProduct ;;
  λ w, (Some tt, set_view (delete_id i (view w)) w).

(** ** [logAudit]

    The INSERT goes through the pool [db], not through the handler's
    connection: it is committed on its own, whatever becomes of the
    handler's transaction.  [details] is always an object literal, so
    [details || {}] is [details]. *)
Definition logAudit (e : env) (product_id : jsval) (action : string)
    (changed_by : jsval) (details : list (string * json)) : M unit :=
  attempt e InsertAudit ;;
  λ w, (Some tt,
        set_inventory_audit
          (inventory_audit w ++
             [Audit.Build_row (js_or product_id JNull) action
                (js_or changed_by (JStr "system")) (JSON_stringify details)])
          w).

(** ** Requests and responses *)

Record request := {
  params_id : Z;     (* req.params.id *)
  body : jsobject;   (* req.body *)
  query : jsobject   (* req.query *)
}.

Inductive response :=
  | Created (id : Z)      (* 201, { id, message } *)
  | Ok                    (* 200, { message } *)
  | OkQuantity (q : Z)    (* 200, { message, quantity } *)
  | BadRequest            (* 400: ValidationError *)
  | NotFound              (* 404: NotFoundError *)
  | Conflict              (* 409: ConflictError *)
  | ServerError.          (* 500: StorageError *)

Definition status (r : response) : Z :=
  match r with
  | Created _ => 201
  | Ok | OkQuantity _ => 200
  | BadRequest => 400
  | NotFound => 404
  | Conflict => 409
  | ServerError => 500
  end.

(** [req.params.id] as the JavaScript string the handler holds. *)
Definition id_string (i : Z) : jsval := JStr (pretty i).

(** The [catch] block of all four handlers. *)
Definition on_error (w : world) : response * world := (ServerError, rollback w).

(** [await conn.rollback(); return res.status(..)] inside [try]. *)
Definition rollback_return (r : response) : M response :=
  λ w, (Some r, rollback w).

(** ** [router.post('/')]: add a product *)
Definition add (e : env) (req : request) (w : world) : response * world :=
  let product_name := get (body req) "product_name" in
  let sku := get (body req) "sku" in
  let category_id := get (body req) "category_id" in
  let supplier_id := get (body req) "supplier_id" in
  let quantity := get_default (body req) "quantity" (JNum 0) in
  let price := get_default (body req) "price" (JNum 0) in
  let location := get (body req) "location" in
  let changed_by := get (body req) "changed_by" in
  if negb (truthy product_name) || negb (truthy sku) then (BadRequest, w)
  else
    try_catch_finally
      (beginTransaction e ;;
       existing <- select e (select_sku sku) ;;
       match existing with
       | _ :: _ => rollback_return Conflict
       | [] =>
           let catId := parseInt category_id in
           let supId := parseInt supplier_id in
           existingCat <- (attempt e SelectCategories ;;
                           λ w, (Some (select_ref catId (categories w)), w)) ;;
           let validCategoryId :=
             match existingCat with _ :: _ => of_parsed catId | [] => JNull end in
           existingSup <- (attempt e SelectSuppliers ;;
                           λ w, (Some (select_ref supId (suppliers w)), w)) ;;
           let validSupplierId :=
             match existingSup with _ :: _ => of_parsed supId | [] => JNull end in
           newId <- execute_insert e
                      [product_name; sku; validCategoryId; validSupplierId;
                       js_or quantity (JNum 0); js_or price (JNum 0);
                       js_or location JNull] ;;
           logAudit e (JNum newId) "ADD" changed_by
             [("product_name", JVal product_name); ("sku", JVal sku);
              ("quantity", JVal quantity); ("price", JVal price);
              ("location", JVal location)] ;;
           commit e ;;
           ret (Created newId)
       end)
      on_error release (getConnection w).

(** ** [router.put('/:id')]: update a product *)

Definition allowed : list string :=
  ["product_name"; "sku"; "category_id"; "supplier_id"; "quantity"; "price";
   "location"].

(** The [for (const key of allowed)] loop: [updates] and [params], pushed
    together, are kept as one list of pairs. *)
Definition collect (b : jsobject) : list (string * jsval) :=
  foldl (λ acc key, if hasOwnProperty b key then acc ++ [(key, get b key)] else acc)
        [] allowed.

Definition update (e : env) (req : request) (w : world) : response * world :=
  let id := params_id req in
  let changed_by := js_or (get (body req) "changed_by") (JStr "unknown") in
  let updates := collect (body req) in
  if (length updates =? 0)%nat then (BadRequest, w)
  else
    let write : M response :=
      affectedRows <- execute_update e updates id ;;
      if affectedRows =? 0 then rollback_return NotFound
      else
        logAudit e (id_string id) "UPDATE" changed_by
          [("updated_fields", JObject (body req))] ;;
        commit e ;;
        ret Ok in
    try_catch_finally
      (beginTransaction e ;;
       if truthy (get (body req) "sku") then
         dup <- select e (select_sku_other (get (body req) "sku") id) ;;
         match dup with
         | _ :: _ => rollback_return Conflict
         | [] => write
         end
       else write)
      on_error release (getConnection w).

(** ** [router.delete('/:id')]: delete a product *)
Definition delete (e : env) (req : request) (w : world) : response * world :=
  let id := params_id req in
  let changed_by :=
    js_or (js_or (get (body req) "changed_by") (get (query req) "changed_by"))
          (JStr "unknown") in
  try_catch_finally
    (beginTransaction e ;;
     prodRows <- select e (select_id id) ;;
     match prodRows with
     | [] => rollback_return NotFound
     | product :: _ =>
         execute_delete e id ;;
         logAudit e (id_string id) "DELETE" changed_by
           [("product_name", JVal (JStr (Products.product_name product)));
            ("sku", JVal (JStr (Products.sku product)))] ;;
         commit e ;;
         ret Ok
     end)
    on_error release (getConnection w).

(** ** [router.post('/:id/adjust')]: adjust a quantity *)

(** [let newQty = q + delta; if (newQty < 0) newQty = 0;] *)
Definition clamp (q delta : Z) : Z :=
  let newQty := q + delta in
  if newQty <? 0 then 0 else newQty.

Definition adjust (e : env) (req : request) (w : world) : response * world :=
  let id := params_id req in
  let changed_by := get (body req) "changed_by" in
  match get (body req) "delta" with
  | JNum delta =>
      try_catch_finally
        (beginTransaction e ;;
         rows <- select e (select_id id) ;;
         match rows with
         | [] => rollback_return NotFound
         | row0 :: _ =>
             let newQty := clamp (Products.quantity row0) delta in
             execute_update e [("quantity", JNum newQty)] id ;;
             logAudit e (id_string id) "QUANTITY_ADJUST"
               (js_or changed_by (JStr "unknown"))
               [("delta", JVal (JNum delta)); ("new_quantity", JVal (JNum newQty))] ;;
             commit e ;;
             ret (OkQuantity newQty)
         end)
        on_error release (getConnection w)
  | _ => (BadRequest, w)
  end.

(** ** Sequences of requests *)

Inductive route := POST_root | PUT_id | DELETE_id | POST_id_adjust.

Definition handle (e : env) (r : route) : request → world → response * world :=
  match r with
  | POST_root => add e
  | PUT_id => update e
  | DELETE_id => delete e
  | POST_id_adjust => adjust e
  end.

(** A database with no product and no audit entry yet. *)
Definition fresh (cats sups : list Z) : world :=
  {| products := []; categories := cats; suppliers := sups;
     inventory_audit := []; auto_increment := 1; conn := None; trace := [] |}.

(** The worlds that requests can lead to.  The schema is fixed; the store
    may fail different calls from one request to the next. *)
Inductive reachable (unique : bool) : world → Prop :=
  | reachable_fresh cats sups : reachable unique (fresh cats sups)
  | reachable_step w f r req :
      reachable unique w →
      reachable unique (handle {| unique_sku := unique; fails := f |} r req w).2.

(** A store that fails nothing. *)
Definition reliable (unique : bool) : env :=
  {| unique_sku := unique; fails := no_faults |}.

(** Requests served one after the other by a reliable store; the responses
    are returned oldest first. *)
Fixpoint serve (unique : bool) (reqs : list (route * request)) (w : world)
  : list response * world :=
  match reqs with
  | [] => ([], w)
  | (r, req) :: rest =>
      let '(resp, w') := handle (reliable unique) r req w in
      let '(resps, w'') := serve unique rest w' in
      (resp :: resps, w'')
  end.

(** The stored quantity of product [i], if it is live. *)
Definition quantity_of (w : world) (i : Z) : option Z :=
  Products.quantity <$> head (select_id i (products w)).

(** ** The reading routes

    [router.get('/')] and [router.get('/:id')] send one SELECT through the
    pool [db]: it reads the committed rows, opens no transaction and has no
    [finally]. *)

(** [db.query] / [db.execute] of a SELECT on [products]. *)
Definition pool_select {A} (e : env) (f : world → A) : M A :=
  attempt e SelectProducts ;;
  λ w, (Some (f w), w).

(** [try { body } catch (err) { res.status(500) }] *)
Definition try_catch {A} (body : M A) (on_throw : A) : world → A * world :=
  λ w, match body w with
       | (Some a, w1) => (a, w1)
       | (None, w1) => (on_throw, w1)
       end.

(** A row of the listing: [p.*, c.name AS category, s.name AS supplier]. *)
Record listed := {
  product : Products.row;
  category : option string;
  supplier : option string
}.

(** The answers of the reading routes. *)
Inductive reply :=
  | Rows (rows : list listed)     (* 200, rows *)
  | Row (row : Products.row)      (* 200, rows[0] *)
  | NoRow                         (* 404, { error: 'Not found' } *)
  | ReadError.                    (* 500, { error: 'Server error' } *)

(** The [name] columns of [categories] and [suppliers], by id. *)
Record names := {
  category_name : Z → string;
  supplier_name : Z → string
}.

(** [LEFT JOIN]: the matching rows of the right table, or one [NULL]. *)
Definition left_join {A} (matches : list A) : list (option A) :=
  match matches with
  | [] => [None]
  | _ :: _ => Some <$> matches
  end.

(** [FROM products p LEFT JOIN categories c ON p.category_id = c.id
    LEFT JOIN suppliers s ON p.supplier_id = s.id] *)
Definition joined (nm : names) (w : world) : list listed :=
  p ← products w;
  c ← left_join (select_ref (Products.category_id p) (categories w));
  s ← left_join (select_ref (Products.supplier_id p) (suppliers w));
  [ {| product := p;
       category := category_name nm <$> c;
       supplier := supplier_name nm <$> s |} ].

(** [ORDER BY p.id DESC]: [a] may stand before [b]. *)
Definition newer_first (a b : listed) : Prop :=
  Products.id (product b) ≤ Products.id (product a).

#[global] Instance newer_first_dec (a b : listed) : Decision (newer_first a b).
Proof. unfold newer_first. apply _. Defined.

(** [router.get('/')]: all products, newest first *)
Definition list_products (e : env) (nm : names) (w : world) : reply * world :=
  try_catch
    (rows <- pool_select e (λ w, merge_sort newer_first (joined nm w)) ;;
     ret (Rows rows))
    ReadError w.

(** [router.get('/:id')]: one product *)
Definition get_product (e : env) (req : request) (w : world) : reply * world :=
  try_catch
    (rows <- pool_select e (λ w, select_id (params_id req) (products w)) ;;
     match rows with
     | [] => ret NoRow
     | row0 :: _ => ret (Row row0)
     end)
    ReadError w.

(** ** [middleware/auth.js]: [authenticate] *)

(** [s.split(' ')]: the pieces between single spaces; never empty. *)
Fixpoint split_space (s : string) : list string :=
  match s with
  | EmptyString => [EmptyString]
  | String c s' =>
      if Ascii.eqb c " " then EmptyString :: split_space s'
      else match split_space s' with
           | piece :: pieces => String c piece :: pieces
           | [] => [String c EmptyString]
           end
  end.

(** What the middleware does with the request. *)
Inductive auth_outcome (payload : Type) :=
  | Rejected (code : Z) (error : string)  (* res.status(code).json({ error }) *)
  | Next (user : payload).                (* req.user = payload; next() *)

Arguments Rejected {payload} code error.
Arguments Next {payload} user.

(** [authenticate(req, res, next)].  [authorization] is
    [req.headers['authorization']], [None] when the header is absent.
    [verify] stands for [jwt.verify(token, process.env.JWT_SECRET, ..)]:
    the payload, or [None] when it reports an error. *)
Definition authenticate {payload} (verify : string → option payload)
    (authorization : option string) : auth_outcome payload :=
  match authorization with
  | None => Rejected 401 "No token"
  | Some header =>
      if String.eqb header "" then Rejected 401 "No token"
      else
        match split_space header !! 1%nat with
        | None | Some EmptyString => Rejected 401 "Malformed token"
        | Some token =>
            match verify token with
            | None => Rejected 403 "Invalid token"
            | Some payload => Next payload
            end
        end
  end.

(** * Vocabulary of the statements *)

Definition absent_or_empty (b : jsobject) (key : string) : Prop :=
  b !! key = None ∨ b !! key = Some (JStr "").

(** The table respects the UNIQUE index on [sku], if the schema has one. *)
Definition index_holds (unique : bool) (w : world) : Prop :=
  unique = true → NoDup (Products.sku <$> products w).

(** [UPDATE products SET quantity = ? WHERE id = ?] *)
Definition set_quantity (n : Z) (i : Z) (r : Products.row) : Products.row :=
  if decide (Products.id r = i)
  then Products.Build_row (Products.id r) (Products.product_name r)
         (Products.sku r) (Products.category_id r) (Products.supplier_id r)
         n (Products.price r) (Products.location r)
  else r.

(** A request to [/:id] and friends with the given body. *)
Definition request_of (i : Z) (b : jsobject) : request :=
  {| params_id := i; body := b; query := ∅ |}.

(** A shop with one product: "Widget", sku "SKU-1", five in stock. *)
Definition widget : jsobject :=
  {[ "product_name" := JStr "Widget"; "sku" := JStr "SKU-1";
     "quantity" := JNum 5; "price" := JNum 10 ]}.

Definition shop : world :=
  (serve true [(POST_root, request_of 0 widget)] (fresh [] [])).2.

(** The quantities that a run of adjustments goes through. *)
Fixpoint running (q : Z) (ds : list Z) : list Z :=
  match ds with
  | [] => []
  | d :: ds' => clamp q d :: running (clamp q d) ds'
  end.

Definition total (ds : list Z) : Z := foldr Z.add 0 ds.

(** No adjustment before the last one is clamped: the sum so far stays at
    or above zero. *)
Fixpoint unclamped_before_last (q : Z) (ds : list Z) : bool :=
  match ds with
  | [] | [_] => true
  | d :: ds' => (0 <=? q + d) && unclamped_before_last (q + d) ds'
  end.

(** The adjustment requests [reqs] are for product [i], with deltas [ds]. *)
Definition adjustments (i : Z) (reqs : list request) (ds : list Z) : Prop :=
  Forall2 (λ req d, params_id req = i ∧ get (body req) "delta" = JNum d) reqs ds.

(** A product with nothing in stock. *)
Definition empty_shelf : world :=
  (serve false
     [(POST_root, request_of 0 {[ "product_name" := JStr "Widget";
                                  "sku" := JStr "SKU-1" ]})]
     (fresh [] [])).2.

(** The same shop after [PUT /1] with [{ sku: "" }]: product 1 now has the
    empty string as its sku. *)
Definition blank_sku_shop (unique : bool) : world :=
  (serve unique
     [(POST_root, request_of 0 widget);
      (PUT_id, request_of 1 {[ "sku" := JStr "" ]})]
     (fresh [] [])).2.

(** Two products, then [PUT /1] with [{ sku: "" }]. *)
Definition gadget : jsobject :=
  {[ "product_name" := JStr "Gadget"; "sku" := JStr "SKU-2" ]}.

Definition two_products_one_blank (unique : bool) : world :=
  (serve unique
     [(POST_root, request_of 0 widget);
      (POST_root, request_of 0 gadget);
      (PUT_id, request_of 1 {[ "sku" := JStr "" ]})]
     (fresh [] [])).2.

(** A store that fails [conn.commit()] and nothing else. *)
Definition commit_fails : env :=
  {| unique_sku := true; fails := λ c, bool_decide (c = Commit) |}.

(** The answer is an error (400, 404, 409 or 500). *)
Definition failed (r : response) : Prop := 400 ≤ status r.

(** A store that fails the INSERT into [inventory_audit] and nothing else. *)
Definition audit_fails : env :=
  {| unique_sku := true; fails := λ c, bool_decide (c = InsertAudit) |}.

(** ** Further vocabulary: ids, references, columns *)

(** The generated ids of a table whose next id is [n]: all different, all
    from 1 up to below [n]. *)
Definition ids_ok_at (t : list Products.row) (n : Z) : Prop :=
  1 ≤ n
  ∧ NoDup (Products.id <$> t)
  ∧ ∀ p, p ∈ t → 1 ≤ Products.id p < n.

Definition ids_ok (w : world) : Prop :=
  ids_ok_at (products w) (auto_increment w).

(** What Add stores for a category or supplier reference: the number that
    [parseInt] reads, if a row of the table has it as its id. *)
Definition resolve (v : jsval) (ids : list Z) : option Z :=
  k ← parseInt v; if decide (k ∈ ids) then Some k else None.

(** The row that Add makes of a request, under the generated id [i]. *)
Definition new_row (i : Z) (b : jsobject) (w : world)
    (n s : string) (q pr : Z) (loc : option string) : Products.row :=
  Products.Build_row i n s
    (resolve (get b "category_id") (categories w))
    (resolve (get b "supplier_id") (suppliers w))
    q pr loc.

(** A row as the object that the driver returns for it: column by column,
    [NULL] as [null], an unknown column as [undefined]. *)
Definition column (r : Products.row) (col : string) : jsval :=
  if decide (col = "id") then JNum (Products.id r)
  else if decide (col = "product_name") then JStr (Products.product_name r)
  else if decide (col = "sku") then JStr (Products.sku r)
  else if decide (col = "category_id") then
    match Products.category_id r with Some k => JNum k | None => JNull end
  else if decide (col = "supplier_id") then
    match Products.supplier_id r with Some k => JNum k | None => JNull end
  else if decide (col = "quantity") then JNum (Products.quantity r)
  else if decide (col = "price") then JNum (Products.price r)
  else if decide (col = "location") then
    match Products.location r with Some l => JStr l | None => JNull end
  else JUndefined.

(** The value of a column after a PATCH-style merge of the body [b] into
    the row [r]: the body's value for an allow-listed property that the
    body has, the row's value otherwise. *)
Definition merged (b : jsobject) (r : Products.row) (col : string) : jsval :=
  match b !! col with
  | Some v => if decide (col ∈ allowed) then v else column r col
  | None => column r col
  end.

(** The calls of one run of a handler that answers [r]: none at all for a
    400, otherwise a connection is taken first and released last, and the
    call before the release ends the transaction, by [Commit] when the
    answer is a success and by [Rollback] when it is an error; no other
    connection is taken, released or rolled back in between. *)
Definition session_shape (r : response) (added : list call) : bool :=
  match added with
  | [] => match r with BadRequest => true | _ => false end
  | first :: rest =>
      bool_decide (first = GetConnection)
      && match reverse rest with
         | Release :: ending :: between =>
             bool_decide (ending = if bool_decide (status r < 400)
                                   then Commit else Rollback)
             && bool_decide ((GetConnection ∉ between) ∧ (Release ∉ between)
                             ∧ (Rollback ∉ between))
         | _ => false
         end
  end.

(** The row of the listing for the product [p], when ids are keys of
    [categories] and [suppliers]: the name of the referenced row if there
    is one, [NULL] otherwise. *)
Definition named (name : Z → string) (ids : list Z) (ref : option Z) : option string :=
  k ← ref; if decide (k ∈ ids) then Some (name k) else None.

Definition listed_of (nm : names) (w : world) (p : Products.row) : listed :=
  {| product := p;
     category := named (category_name nm) (categories w) (Products.category_id p);
     supplier := named (supplier_name nm) (suppliers w) (Products.supplier_id p) |}.

(** No space in the string. *)
Fixpoint spaceless (s : string) : bool :=
  match s with
  | EmptyString => true
  | String c s' => negb (Ascii.eqb c " ") && spaceless s'
  end.

(** What may follow the token in a header: nothing, or a space and more. *)
Definition tail_of (rest : option string) : string :=
  match rest with
  | None => ""
  | Some more => String " " more
  end.
(** * Properties *)

(** ** Values *)

Lemma pretty_N_go_nonempty (x : N) (s : string) :
  s ≠ EmptyString → pretty_N_go x s ≠ EmptyString.
Proof.
  revert s. induction (N.lt_wf_0 x) as [x _ IH]; intros s Hs.
  destruct (decide (x = 0)%N) as [->|Hx].
  - by rewrite pretty_N_go_0.
  - rewrite pretty_N_go_step by lia.
    apply IH; [apply N.div_lt; lia | done].
Qed.

Lemma pretty_Z_nonempty (i : Z) : pretty i ≠ EmptyString.
Proof.
  destruct i as [|p|p]; [done | | done].
  unfold pretty, pretty_Z, pretty, pretty_positive, pretty, pretty_N.
  case_decide; [done |].
  rewrite pretty_N_go_step by lia.
  by apply pretty_N_go_nonempty.
Qed.

(** The route segment is a non-empty string, hence truthy, whatever the id. *)
Lemma truthy_id_string (i : Z) : truthy (id_string i) = true.
Proof.
  unfold id_string, truthy.
  destruct (pretty i) eqn:E; [by destruct (pretty_Z_nonempty i) | done].
Qed.

Lemma js_or_id_string (i : Z) (v : jsval) : js_or (id_string i) v = id_string i.
Proof. unfold js_or. by rewrite truthy_id_string. Qed.

#[global] Opaque id_string.

(** ** [POST /]: a request without name or sku stops before the store *)

Lemma absent_or_empty_falsy (b : jsobject) (key : string) :
  absent_or_empty b key → truthy (get b key) = false.
Proof. unfold get. by intros [-> | ->]. Qed.

(** C8. An Add whose [product_name] or [sku] is absent or the empty string
    is answered 400 (ValidationError) and leaves the world as it was: no
    call reaches the pool or a connection (the trace is unchanged, so no
    transaction is started), no row is inserted, no audit entry is made.
    This holds whatever the schema and whatever the store would fail. *)
Theorem add_rejects_missing_name_or_sku (e : env) (req : request) (w : world) :
  absent_or_empty (body req) "product_name" ∨ absent_or_empty (body req) "sku" →
  add e req w = (BadRequest, w).
Proof.
  intros H. unfold add.
  destruct H as [H | H]; apply absent_or_empty_falsy in H; rewrite H.
  - done.
  - by rewrite orb_true_r.
Qed.

Lemma add_rejects_missing_name_or_sku_witness :
  let req := request_of 0 {[ "product_name" := JStr "Widget"; "sku" := JStr "" ]} in
  (absent_or_empty (body req) "product_name" ∨ absent_or_empty (body req) "sku")
  ∧ add (reliable true) req (fresh [] []) = (BadRequest, fresh [] []).
Proof.
  intros req.
  assert (H : absent_or_empty (body req) "product_name"
              ∨ absent_or_empty (body req) "sku")
    by (right; right; reflexivity).
  exact (conj H (add_rejects_missing_name_or_sku (reliable true) req (fresh [] []) H)).
Defined.

(** ** Running a handler symbolically *)

Arguments select_id : simpl never.
Arguments select_sku : simpl never.
Arguments select_sku_other : simpl never.
Arguments select_ref : simpl never.
Arguments delete_id : simpl never.
Arguments bind_row : simpl never.
Arguments sku_index_ok : simpl never.
Arguments JSON_stringify : simpl never.
Arguments js_or : simpl never.
Arguments get : simpl never.
Arguments get_default : simpl never.
Arguments truthy : simpl never.
Arguments parseInt : simpl never.
Arguments collect : simpl never.
Arguments clamp : simpl never.

(** [affectedRows === 0] *)
Lemma affected_none : (Z.of_nat 0 =? 0) = true.
Proof. reflexivity. Qed.

Lemma affected_some (n : nat) : (Z.of_nat (S n) =? 0) = false.
Proof. reflexivity. Qed.

(** Unfolds the monad and the connection, and leaves the tables alone. *)
Ltac exec :=
  unfold try_catch_finally, bind, ret, beginTransaction, commit, select,
    execute_insert, execute_update, execute_delete, logAudit, rollback_return,
    on_error, attempt; cbn; rewrite ?affected_none, ?affected_some; cbn.

(** Runs a handler to the end, deciding every call and test on the way. *)
Ltac crunch :=
  repeat (exec; try done;
          match goal with
          | |- context [(length ?l =? 0)%nat] =>
              destruct (length l =? 0)%nat eqn:?
          | |- context [fails ?e ?c] => destruct (fails e c) eqn:?
          | |- context [truthy ?v] => destruct (truthy v) eqn:?
          | |- context [select_sku_other ?v ?i ?t] =>
              destruct (select_sku_other v i t) eqn:?
          | |- context [select_sku ?v ?t] => destruct (select_sku v t) eqn:?
          | |- context [select_ref ?v ?l] => destruct (select_ref v l) eqn:?
          | |- context [bind_row ?n ?ps] => destruct (bind_row n ps) eqn:?
          | |- context [update_rows ?s ?i ?t] =>
              destruct (update_rows s i t) eqn:?
          | |- context [sku_index_ok ?e ?t] => destruct (sku_index_ok e t) eqn:?
          | |- context [select_id ?i ?t] => destruct (select_id i t) eqn:?
          end);
  exec; try done.

(** ** The schema *)

Lemma sku_index_ok_spec (e : env) (t : list Products.row) :
  sku_index_ok e t = true ↔ (unique_sku e = true → NoDup (Products.sku <$> t)).
Proof.
  unfold sku_index_ok. destruct (unique_sku e).
  - rewrite bool_decide_eq_true. naive_solver.
  - naive_solver.
Qed.

Lemma sku_index_ok_same (e : env) (t t' : list Products.row) :
  Products.sku <$> t' = Products.sku <$> t →
  sku_index_ok e t' = sku_index_ok e t.
Proof. unfold sku_index_ok. by intros ->. Qed.

(** ** [POST /:id/adjust] *)

Lemma clamp_max (q d : Z) : clamp q d = Z.max 0 (q + d).
Proof. unfold clamp. destruct (Z.ltb_spec (q + d) 0); lia. Qed.

Lemma update_quantity (n i : Z) (t : list Products.row) :
  update_rows [("quantity", JNum n)] i t = Some (set_quantity n i <$> t).
Proof.
  induction t as [|r t IH]; [reflexivity |].
  cbn [update_rows]. rewrite IH, fmap_cons. unfold set_quantity at 2.
  destruct (decide (Products.id r = i)); by destruct r.
Qed.

Lemma set_quantity_sku (n i : Z) (t : list Products.row) :
  Products.sku <$> (set_quantity n i <$> t) = Products.sku <$> t.
Proof.
  rewrite <- list_fmap_compose. apply list_fmap_ext.
  intros _ r _. unfold set_quantity. simpl. by case_decide.
Qed.

Lemma set_quantity_id (n i : Z) (r : Products.row) :
  Products.id (set_quantity n i r) = Products.id r.
Proof. unfold set_quantity. by case_decide. Qed.

Lemma select_id_set_quantity (n i : Z) (t : list Products.row) :
  select_id i (set_quantity n i <$> t) = set_quantity n i <$> select_id i t.
Proof.
  unfold select_id. induction t as [|r t IH]; [done |].
  rewrite fmap_cons.
  destruct (decide (Products.id r = i)) as [E|E].
  - rewrite !filter_cons_True by by rewrite ?set_quantity_id.
    by rewrite fmap_cons, IH.
  - by rewrite !filter_cons_False by by rewrite ?set_quantity_id.
Qed.

Lemma quantity_of_live (w : world) (i q : Z) :
  quantity_of w i = Some q →
  ∃ r rest, select_id i (products w) = r :: rest
            ∧ Products.id r = i ∧ Products.quantity r = q.
Proof.
  unfold quantity_of. destruct (select_id i (products w)) as [|r rest] eqn:E;
    [done |].
  intros [= <-]. exists r, rest. split_and!; [done | | done].
  assert (r ∈ select_id i (products w)) as Hr by (rewrite E; left).
  unfold select_id in Hr. by apply list_elem_of_filter in Hr as [? _].
Qed.

(** One adjustment by a reliable store, with what the next one needs. *)
Lemma adjust_step (u : bool) (req : request) (w : world) (q d : Z) :
  index_holds u w →
  quantity_of w (params_id req) = Some q →
  get (body req) "delta" = JNum d →
  let r := adjust (reliable u) req w in
  r.1 = OkQuantity (clamp q d)
  ∧ quantity_of r.2 (params_id req) = Some (clamp q d)
  ∧ index_holds u r.2
  ∧ inventory_audit r.2 =
      inventory_audit w ++
        [Audit.Build_row (id_string (params_id req)) "QUANTITY_ADJUST"
           (js_or (get (body req) "changed_by") (JStr "unknown"))
           [("delta", JVal (JNum d)); ("new_quantity", JVal (JNum (clamp q d)))]].
Proof.
  intros Hidx Hq Hd r. subst r.
  destruct (quantity_of_live _ _ _ Hq) as (r0 & rest & Hsel & Hid & Hq0).
  unfold adjust. rewrite Hd. exec. rewrite Hsel. exec.
  rewrite update_quantity, Hq0.
  rewrite (sku_index_ok_same _ (products w)) by apply set_quantity_sku.
  assert (sku_index_ok (reliable u) (products w) = true) as ->
    by by apply sku_index_ok_spec.
  exec. split_and!.
  - done.
  - unfold quantity_of. cbn. rewrite select_id_set_quantity, Hsel. cbn.
    unfold set_quantity. by rewrite decide_True.
  - unfold index_holds. cbn. rewrite set_quantity_sku. exact Hidx.
  - rewrite js_or_id_string. f_equal. f_equal. f_equal.
    unfold js_or. destruct (truthy (get (body req) "changed_by")) eqn:E.
    + by rewrite E.
    + done.
Qed.


Lemma shop_index : index_holds true shop.
Proof. intros _. apply (bool_decide_unpack _). by vm_compute. Defined.


(** The scenario of the specification: add, add again under the same sku,
    take out more than there is, delete, adjust what is gone. *)
Example scenario_widget :
  (serve true
     [(POST_root, request_of 0 widget);
      (POST_root, request_of 0 {[ "product_name" := JStr "Gadget";
                                  "sku" := JStr "SKU-1" ]});
      (POST_id_adjust, request_of 1 {[ "delta" := JNum (-10) ]});
      (DELETE_id, request_of 1 ∅);
      (POST_id_adjust, request_of 1 {[ "delta" := JNum 1 ]})]
     (fresh [] [])).1
  = [Created 1; Conflict; OkQuantity 0; Ok; NotFound].
Proof. by vm_compute. Qed.

(** *** Sequences of adjustments *)

Lemma clamp_ge (q d : Z) : q + d ≤ clamp q d.
Proof. rewrite clamp_max. lia. Qed.

Lemma clamp_all_unclamped (q : Z) (ds : list Z) :
  ds ≠ [] → unclamped_before_last q ds = true →
  foldl clamp q ds = Z.max 0 (q + total ds).
Proof.
  revert q. induction ds as [|d ds IH]; intros q Hne Hun; [done |].
  destruct ds as [|d' ds].
  - cbn. rewrite clamp_max. f_equal. lia.
  - cbn [unclamped_before_last] in Hun.
    apply andb_true_iff in Hun as [Hd Hun]. apply Z.leb_le in Hd.
    change (foldl clamp q (d :: d' :: ds))
      with (foldl clamp (clamp q d) (d' :: ds)).
    assert (clamp q d = q + d) as -> by (rewrite clamp_max; lia).
    rewrite IH by done.
    change (total (d :: d' :: ds)) with (d + total (d' :: ds)).
    f_equal. lia.
Qed.

Lemma clamp_all_ge (q : Z) (ds : list Z) :
  ds ≠ [] → Z.max 0 (q + total ds) ≤ foldl clamp q ds.
Proof.
  revert q. induction ds as [|d ds IH]; intros q Hne; [done |].
  destruct ds as [|d' ds].
  - cbn. rewrite clamp_max. lia.
  - change (foldl clamp q (d :: d' :: ds))
      with (foldl clamp (clamp q d) (d' :: ds)).
    change (total (d :: d' :: ds)) with (d + total (d' :: ds)).
    specialize (IH (clamp q d) ltac:(done)).
    pose proof (clamp_ge q d). lia.
Qed.

Lemma serve_adjustments (u : bool) (i : Z) (reqs : list request) (ds : list Z) :
  adjustments i reqs ds →
  ∀ (w : world) (q : Z),
    index_holds u w → quantity_of w i = Some q →
    let r := serve u (pair POST_id_adjust <$> reqs) w in
    r.1 = OkQuantity <$> running q ds
    ∧ quantity_of r.2 i = Some (foldl clamp q ds)
    ∧ index_holds u r.2.
Proof.
  induction 1 as [|req d reqs ds [Hi Hd] _ IH]; intros w q Hidx Hq; [done |].
  subst i.
  destruct (adjust_step u req w q d Hidx Hq Hd) as (H1 & H2 & H3 & _).
  cbn [fmap list_fmap serve handle]. fold (@fmap list _ _ _ (pair POST_id_adjust : request → _)).
  destruct (adjust (reliable u) req w) as [resp w'] eqn:E. cbn in H1, H2, H3.
  specialize (IH w' (clamp q d) H3 H2). cbn zeta in IH.
  destruct (serve u (pair POST_id_adjust <$> reqs) w') as [resps w''].
  destruct IH as (IH1 & IH2 & IH3). cbn in *. subst. by split_and!.
Qed.




(** ** [DELETE /:id] *)

Lemma js_or_unknown_system (a : jsval) :
  js_or (js_or a (JStr "unknown")) (JStr "system") = js_or a (JStr "unknown").
Proof. unfold js_or. destruct (truthy a) eqn:E; by rewrite ?E. Qed.

Lemma select_id_delete_id (i : Z) (t : list Products.row) :
  select_id i (delete_id i t) = [].
Proof.
  unfold select_id, delete_id. induction t as [|r t IH]; [done |].
  destruct (decide (Products.id r = i)) as [E|E].
  - by rewrite filter_cons_False by naive_solver.
  - rewrite filter_cons_True by done. by rewrite filter_cons_False.
Qed.

(** C7. Delete, served by a store that fails nothing.  If no row has the
    id, the answer is 404 (NotFoundError) and neither table changes: no
    audit entry.  If a row has it, the SELECT that reads its name and sku
    comes before the DELETE, no row with the id is left, and exactly one
    entry is appended to the audit log: action DELETE, the id of the
    request, and the name and sku that were read. *)
Theorem delete_protocol (u : bool) (req : request) (w : world) :
  let r := delete (reliable u) req w in
  match select_id (params_id req) (products w) with
  | [] =>
      r.1 = NotFound
      ∧ products r.2 = products w
      ∧ inventory_audit r.2 = inventory_audit w
  | product :: _ =>
      r.1 = Ok
      ∧ products r.2 = delete_id (params_id req) (products w)
      ∧ select_id (params_id req) (products r.2) = []
      ∧ inventory_audit r.2 =
          inventory_audit w ++
            [Audit.Build_row (id_string (params_id req)) "DELETE"
               (js_or (js_or (get (body req) "changed_by")
                             (get (query req) "changed_by"))
                      (JStr "unknown"))
               [("product_name", JVal (JStr (Products.product_name product)));
                ("sku", JVal (JStr (Products.sku product)))]]
      ∧ trace r.2 =
          trace w ++ [GetConnection; BeginTransaction; SelectProducts;
                      DeleteProduct; InsertAudit; Commit; Release]
  end.
Proof.
  intros r. subst r. unfold delete. exec.
  destruct (select_id (params_id req) (products w)) as [|product rest] eqn:E;
    exec; [done |].
  split_and!.
  - done.
  - done.
  - apply select_id_delete_id.
  - by rewrite js_or_id_string, js_or_unknown_system.
  - by rewrite <- !app_assoc.
Qed.

(** With no row under the id, Delete writes nothing, whatever the store
    fails (the answer is then 404 or 500). *)
Lemma delete_missing_writes_nothing (e : env) (req : request) (w : world) :
  select_id (params_id req) (products w) = [] →
  products (delete e req w).2 = products w
  ∧ inventory_audit (delete e req w).2 = inventory_audit w.
Proof. intros H. unfold delete. crunch; by rewrite H. Qed.

(** ** [PUT /:id] *)

Lemma collect_loop (b : jsobject) (acc : list (string * jsval)) (keys : list string) :
  foldl (λ acc key, if hasOwnProperty b key then acc ++ [(key, get b key)] else acc)
        acc keys
  = acc ++ omap (λ key, pair key <$> b !! key) keys.
Proof.
  revert acc. induction keys as [|key keys IH]; intros acc.
  - by rewrite app_nil_r.
  - cbn [foldl omap list_omap]. rewrite IH. unfold hasOwnProperty, get.
    destruct (b !! key) as [v|]; cbn.
    + by rewrite <- app_assoc.
    + done.
Qed.

(** The loop keeps the allow-listed properties that the body has, in the
    order of the allow-list. *)
Lemma collect_omap (b : jsobject) :
  collect b = omap (λ key, pair key <$> b !! key) allowed.
Proof. unfold collect. by rewrite collect_loop. Qed.

Lemma elem_of_collect (b : jsobject) (key : string) (v : jsval) :
  (key, v) ∈ collect b ↔ key ∈ allowed ∧ b !! key = Some v.
Proof.
  rewrite collect_omap, list_elem_of_omap. split.
  - intros (k & Hk & Hv). destruct (b !! k) eqn:E; simplify_eq/=. done.
  - intros [Hk Hv]. exists key. by rewrite Hv.
Qed.

Lemma collect_agree (b b' : jsobject) :
  (∀ key, key ∈ allowed → b' !! key = b !! key) → collect b' = collect b.
Proof.
  intros H. rewrite !collect_omap.
  apply list_omap_ext, Forall_Forall2_diag, Forall_forall.
  intros key Hkey. by rewrite H.
Qed.

Lemma collect_nil (b : jsobject) :
  (∀ key, key ∈ allowed → b !! key = None) → collect b = [].
Proof.
  intros H. destruct (collect b) as [|[key v] rest] eqn:E; [done |].
  assert ((key, v) ∈ collect b) as Hin by (rewrite E; left).
  apply elem_of_collect in Hin as [Hkey Hv]. by rewrite H in Hv.
Qed.

Lemma get_agree (b b' : jsobject) (key : string) :
  b' !! key = b !! key → get b' key = get b key.
Proof. unfold get. by intros ->. Qed.

Lemma collect_has_sku (b : jsobject) (s : string) :
  get b "sku" = JStr s → (length (collect b) =? 0)%nat = false.
Proof.
  intros H. assert (("sku", JStr s) ∈ collect b) as Hin.
  { apply elem_of_collect. split; [unfold allowed; set_solver |].
    unfold get in H. by destruct (b !! "sku") as [v|]; simplify_eq/=. }
  destruct (collect b); [by apply elem_of_nil in Hin | done].
Qed.

(** A non-empty sku that another product holds: the duplicate check finds
    it, and the handler answers 409 after a rollback, before any UPDATE. *)
Lemma update_conflict (u : bool) (req : request) (w : world) (p : Products.row) :
  p ∈ products w →
  get (body req) "sku" = JStr (Products.sku p) →
  Products.sku p ≠ "" →
  Products.id p ≠ params_id req →
  let r := update (reliable u) req w in
  r.1 = Conflict
  ∧ products r.2 = products w
  ∧ inventory_audit r.2 = inventory_audit w
  ∧ conn r.2 = None
  ∧ trace r.2 =
      trace w ++ [GetConnection; BeginTransaction; SelectProducts; Rollback;
                  Release].
Proof.
  intros Hp Hsku Hne Hid r. subst r. unfold update.
  rewrite (collect_has_sku _ _ Hsku), Hsku.
  assert (truthy (JStr (Products.sku p)) = true) as ->.
  { unfold truthy. apply negb_true_iff. by apply String.eqb_neq. }
  exec.
  destruct (select_sku_other (JStr (Products.sku p)) (params_id req) (products w))
    as [|p' rest] eqn:E.
  - exfalso. assert (p ∈ @nil Products.row) as Hin; [| by inversion Hin].
    rewrite <- E. unfold select_sku_other. by apply list_elem_of_filter.
  - exec. split_and!; try done. by rewrite <- !app_assoc.
Qed.






(** ** What a handler leaves behind, whatever the store fails *)

(** A call that fails leaves the rows of [products] as they were: the
    handler's statements on [products] are all inside its transaction. *)
Lemma failed_call_keeps_rows (e : env) (r : route) (req : request) (w : world) :
  failed (handle e r req w).1 → products (handle e r req w).2 = products w.
Proof.
  unfold failed. destruct r; cbn [handle].
  - unfold add. crunch; cbn; lia.
  - unfold update. crunch; cbn; lia.
  - unfold delete. crunch; cbn; lia.
  - unfold adjust. destruct (get (body req) "delta"); try done. crunch; cbn; lia.
Qed.

Lemma failed_call_keeps_rows_witness :
  products (handle commit_fails POST_root (request_of 0 widget) (fresh [] [])).2
  = products (fresh [] []).
Proof.
  apply (failed_call_keeps_rows commit_fails POST_root (request_of 0 widget)
           (fresh [] [])).
  unfold failed. by vm_compute.
Defined.

(** Every handler ends its transaction: committed or rolled back. *)
Lemma transaction_is_closed (e : env) (r : route) (req : request) (w : world) :
  conn w = None → conn (handle e r req w).2 = None.
Proof.
  intros Hconn. destruct r; cbn [handle].
  - unfold add. crunch.
  - unfold update. crunch.
  - unfold delete. crunch.
  - unfold adjust. destruct (get (body req) "delta"); try done. crunch.
Qed.

(** A call that succeeds has appended exactly one audit entry. *)
Lemma successful_call_logs_once (e : env) (r : route) (req : request) (w : world) :
  ¬ failed (handle e r req w).1 →
  ∃ a, inventory_audit (handle e r req w).2 = inventory_audit w ++ [a].
Proof.
  unfold failed. destruct r; cbn [handle].
  - unfold add. crunch; cbn; try lia; eauto.
  - unfold update. crunch; cbn; try lia; eauto.
  - unfold delete. crunch; cbn; try lia; eauto.
  - unfold adjust. destruct (get (body req) "delta"); cbn; try lia.
    crunch; cbn; try lia; eauto.
Qed.

Lemma successful_call_logs_once_witness :
  ∃ a, inventory_audit
         (handle (reliable true) POST_root (request_of 0 widget) (fresh [] [])).2
       = inventory_audit (fresh [] []) ++ [a].
Proof.
  apply (successful_call_logs_once (reliable true) POST_root
           (request_of 0 widget) (fresh [] [])).
  unfold failed. vm_compute. intros H. by apply H.
Defined.

(** A call that fails has appended no audit entry, provided the failure is
    not that of [conn.commit()]: the audit entry is written through the
    pool and a later rollback does not take it back. *)
Lemma failed_call_logs_nothing_unless_commit_fails
    (e : env) (r : route) (req : request) (w : world) :
  fails e Commit = false →
  failed (handle e r req w).1 →
  inventory_audit (handle e r req w).2 = inventory_audit w.
Proof.
  unfold failed. intros Hcommit. destruct r; cbn [handle].
  - unfold add. crunch; cbn; lia.
  - unfold update. crunch; cbn; lia.
  - unfold delete. crunch; cbn; lia.
  - unfold adjust. destruct (get (body req) "delta"); try done. crunch; cbn; lia.
Qed.

Lemma failed_call_logs_nothing_unless_commit_fails_witness :
  inventory_audit
    (handle audit_fails POST_root (request_of 0 widget) (fresh [] [])).2
  = inventory_audit (fresh [] []).
Proof.
  apply (failed_call_logs_nothing_unless_commit_fails audit_fails POST_root
           (request_of 0 widget) (fresh [] [])).
  - reflexivity.
  - unfold failed. by vm_compute.
Defined.

(** ** The UNIQUE index, when the schema has it *)

Lemma delete_id_keeps_index (i : Z) (t : list Products.row) :
  NoDup (Products.sku <$> t) → NoDup (Products.sku <$> delete_id i t).
Proof.
  intros H. eapply sublist_NoDup; [exact H |].
  apply (fmap_sublist Products.sku). unfold delete_id. apply sublist_filter.
Qed.

(** The store refuses a statement that would break the index, so no
    handler commits a table that breaks it. *)
Lemma handle_keeps_index (e : env) (r : route) (req : request) (w : world) :
  index_holds (unique_sku e) w →
  index_holds (unique_sku e) (handle e r req w).2.
Proof.
  intros Hidx.
  assert (∀ t, sku_index_ok e t = true →
               unique_sku e = true → NoDup (Products.sku <$> t)) as Hok
    by (intros t Ht Hu; exact (proj1 (sku_index_ok_spec _ _) Ht Hu)).
  assert (unique_sku e = true →
          NoDup (Products.sku <$> delete_id (params_id req) (products w)))
    as Hdel by (intros Hu; by apply delete_id_keeps_index, Hidx).
  destruct r; cbn [handle].
  - unfold add. crunch; unfold index_holds; cbn; auto.
  - unfold update. crunch; unfold index_holds; cbn; auto.
  - unfold delete. crunch; unfold index_holds; cbn; auto.
  - unfold adjust. destruct (get (body req) "delta"); try done.
    crunch; unfold index_holds; cbn; auto.
Qed.



(** ** Where the handlers fall short *)

(** C1 (code defect). [logAudit] sends its INSERT through the pool [db],
    not through the connection that holds the transaction.  When
    [conn.commit()] fails, the handler answers 500 and rolls back: the rows
    of [products] are as before, but the audit entry written just before
    stays.  This is so for each of the four handlers (here: Add on an
    empty database, then Update, Delete and AdjustQuantity on the shop with
    one product). *)
Theorem audit_entry_survives_failed_commit :
  ((add commit_fails (request_of 0 widget) (fresh [] [])).1 = ServerError
   ∧ products (add commit_fails (request_of 0 widget) (fresh [] [])).2 = []
   ∧ Audit.action <$>
       inventory_audit (add commit_fails (request_of 0 widget) (fresh [] [])).2
     = ["ADD"]
   ∧ trace (add commit_fails (request_of 0 widget) (fresh [] [])).2
     = [GetConnection; BeginTransaction; SelectProducts; SelectCategories;
        SelectSuppliers; InsertProduct; InsertAudit; Commit; Rollback; Release])
  ∧ ((update commit_fails (request_of 1 {[ "price" := JNum 12 ]}) shop).1
     = ServerError
     ∧ products (update commit_fails (request_of 1 {[ "price" := JNum 12 ]}) shop).2
       = products shop
     ∧ Audit.action <$>
         inventory_audit
           (update commit_fails (request_of 1 {[ "price" := JNum 12 ]}) shop).2
       = ["ADD"; "UPDATE"])
  ∧ ((delete commit_fails (request_of 1 ∅) shop).1 = ServerError
     ∧ products (delete commit_fails (request_of 1 ∅) shop).2 = products shop
     ∧ Audit.action <$>
         inventory_audit (delete commit_fails (request_of 1 ∅) shop).2
       = ["ADD"; "DELETE"])
  ∧ ((adjust commit_fails (request_of 1 {[ "delta" := JNum 2 ]}) shop).1
     = ServerError
     ∧ products (adjust commit_fails (request_of 1 {[ "delta" := JNum 2 ]}) shop).2
       = products shop
     ∧ Audit.action <$>
         inventory_audit
           (adjust commit_fails (request_of 1 {[ "delta" := JNum 2 ]}) shop).2
       = ["ADD"; "QUANTITY_ADJUST"]).
Proof. split_and!; by vm_compute. Qed.

(** C2 (code defect). Only AdjustQuantity floors the quantity at zero.
    Add stores the quantity of the request as it is, and so does Update:
    after [POST /] with [quantity: -5] the new product has quantity -5, and
    [PUT /1] with [quantity: -3] leaves product 1 with quantity -3. *)
Theorem negative_quantity_is_stored :
  (serve true
     [(POST_root, request_of 0 {[ "product_name" := JStr "Widget";
                                  "sku" := JStr "SKU-1";
                                  "quantity" := JNum (-5) ]})]
     (fresh [] [])).1
  = [Created 1]
  ∧ quantity_of
      (serve true
         [(POST_root, request_of 0 {[ "product_name" := JStr "Widget";
                                      "sku" := JStr "SKU-1";
                                      "quantity" := JNum (-5) ]})]
         (fresh [] [])).2 1
    = Some (-5)
  ∧ quantity_of shop 1 = Some 5
  ∧ (update (reliable true) (request_of 1 {[ "quantity" := JNum (-3) ]}) shop).1
    = Ok
  ∧ quantity_of
      (update (reliable true) (request_of 1 {[ "quantity" := JNum (-3) ]}) shop).2 1
    = Some (-3).
Proof. split_and!; by vm_compute. Qed.


(** C5 (code defect). Product 1 holds the empty sku; [PUT /2] with
    [{ sku: "" }] asks for a sku that a different product uses.  The
    duplicate check is skipped, since [""] is falsy: without a UNIQUE index
    the answer is 200 and the row is changed, with one the store refuses
    the UPDATE and the answer is 500.  It is 409 in neither case. *)
Theorem blank_sku_update_is_not_a_conflict :
  ((λ p, (Products.id p, Products.sku p)) <$> products (two_products_one_blank false)
   = [(1, ""); (2, "SKU-2")]
   ∧ (update (reliable false) (request_of 2 {[ "sku" := JStr "" ]})
        (two_products_one_blank false)).1 = Ok
   ∧ (λ p, (Products.id p, Products.sku p)) <$>
       products (update (reliable false) (request_of 2 {[ "sku" := JStr "" ]})
                   (two_products_one_blank false)).2
     = [(1, ""); (2, "")])
  ∧ ((λ p, (Products.id p, Products.sku p)) <$> products (two_products_one_blank true)
     = [(1, ""); (2, "SKU-2")]
     ∧ (update (reliable true) (request_of 2 {[ "sku" := JStr "" ]})
          (two_products_one_blank true)).1 = ServerError).
Proof. split_and!; by vm_compute. Qed.

(** The check that Update does make: a non-empty sku held by a different
    product is answered 409 and nothing is written. *)
Lemma update_sku_in_use_conflicts
    (u : bool) (req : request) (w : world) (p : Products.row) :
  p ∈ products w →
  Products.id p ≠ params_id req →
  get (body req) "sku" = JStr (Products.sku p) →
  Products.sku p ≠ "" →
  (update (reliable u) req w).1 = Conflict
  ∧ products (update (reliable u) req w).2 = products w
  ∧ inventory_audit (update (reliable u) req w).2 = inventory_audit w.
Proof.
  intros Hp Hid Hsku Hne.
  destruct (update_conflict u req w p Hp Hsku Hne Hid) as (H1 & H2 & H3 & _).
  by split_and!.
Qed.

(** * Further properties of the handlers *)

Arguments resolve : simpl never.

(** ** What the statements do to ids and to other rows *)

Lemma assign_id (r r' : Products.row) (col : string) (v : jsval) :
  assign r col v = Some r' → Products.id r' = Products.id r.
Proof.
  destruct r. unfold assign. intros Hassign.
  repeat case_decide; by simplify_option_eq.
Qed.

Lemma assign_all_id (sets : list (string * jsval)) (r r' : Products.row) :
  assign_all r sets = Some r' → Products.id r' = Products.id r.
Proof.
  revert r. induction sets as [|[col v] sets IH]; intros r H; cbn in H.
  - by simplify_eq.
  - destruct (assign r col v) as [r1|] eqn:E; [| done]. cbn in H.
    rewrite (IH _ H). by eapply assign_id.
Qed.

(** Row by row: a row with the id is reassigned, any other row is kept. *)
Lemma update_rows_pointwise (sets : list (string * jsval)) (i : Z)
    (t t' : list Products.row) :
  update_rows sets i t = Some t' →
  Forall2 (λ r r', if decide (Products.id r = i)
                   then assign_all r sets = Some r' else r' = r) t t'.
Proof.
  revert t'. induction t as [|r t IH]; intros t' H; cbn in H.
  - simplify_eq. constructor.
  - destruct (decide (Products.id r = i)) as [E|E].
    + destruct (assign_all r sets) as [r1|] eqn:E1; [| done]. cbn in H.
      destruct (update_rows sets i t) as [t1|]; [| done]. cbn in H.
      simplify_eq. constructor; [by rewrite decide_True | by apply IH].
    + cbn in H. destruct (update_rows sets i t) as [t1|]; [| done]. cbn in H.
      simplify_eq. constructor; [by rewrite decide_False | by apply IH].
Qed.

Lemma update_rows_ids (sets : list (string * jsval)) (i : Z)
    (t t' : list Products.row) :
  update_rows sets i t = Some t' → Products.id <$> t' = Products.id <$> t.
Proof.
  intros H. apply update_rows_pointwise in H.
  induction H as [|r r' t t' Hr _ IH]; [done |].
  rewrite !fmap_cons, IH. f_equal.
  case_decide; [by eapply assign_all_id | by subst].
Qed.

Lemma update_rows_others (sets : list (string * jsval)) (i : Z)
    (t t' : list Products.row) :
  update_rows sets i t = Some t' → delete_id i t' = delete_id i t.
Proof.
  intros H. apply update_rows_pointwise in H. unfold delete_id.
  induction H as [|r r' t t' Hr _ IH]; [done |].
  case_decide as E.
  - apply assign_all_id in Hr.
    rewrite !filter_cons_False by (intros Hne; apply Hne; congruence). done.
  - subst r'. rewrite !filter_cons_True by done. by rewrite IH.
Qed.

Lemma update_rows_no_match (sets : list (string * jsval)) (i : Z)
    (t : list Products.row) :
  select_id i t = [] → update_rows sets i t = Some t.
Proof.
  unfold select_id. induction t as [|r t IH]; intros H; [done |].
  destruct (decide (Products.id r = i)) as [E|E].
  - by rewrite filter_cons_True in H.
  - rewrite filter_cons_False in H by done. cbn.
    rewrite decide_False by done. cbn. by rewrite IH.
Qed.

Lemma bind_row_id (n : Z) (params : list jsval) (r : Products.row) :
  bind_row n params = Some r → Products.id r = n.
Proof.
  unfold bind_row. intros H.
  repeat (destruct params as [|? params]; try done).
  by simplify_option_eq.
Qed.

Lemma delete_id_idemp (i : Z) (t : list Products.row) :
  delete_id i (delete_id i t) = delete_id i t.
Proof.
  unfold delete_id. induction t as [|r t IH]; [done |].
  destruct (decide (Products.id r ≠ i)).
  - rewrite (filter_cons_True _ r t) by done.
    rewrite filter_cons_True by done. by rewrite IH.
  - by rewrite filter_cons_False by done.
Qed.

Lemma delete_id_app (i : Z) (t1 t2 : list Products.row) :
  delete_id i (t1 ++ t2) = delete_id i t1 ++ delete_id i t2.
Proof. unfold delete_id. apply filter_app. Qed.

Lemma handlers_categories (e : env) (r : route) (req : request) (w : world) :
  categories (handle e r req w).2 = categories w
  ∧ suppliers (handle e r req w).2 = suppliers w.
Proof.
  split; destruct r; cbn [handle].
  - unfold add. crunch.
  - unfold update. crunch.
  - unfold delete. crunch.
  - unfold adjust. destruct (get (body req) "delta"); try done. crunch.
  - unfold add. crunch.
  - unfold update. crunch.
  - unfold delete. crunch.
  - unfold adjust. destruct (get (body req) "delta"); try done. crunch.
Qed.

(** An operation on one id leaves the rows of every other id as they
    were, and Add keeps every row there was; no handler writes to
    [categories] or [suppliers].  This holds for every answer and whatever
    the store fails. *)
Theorem handlers_leave_other_rows (e : env) (r : route) (req : request) (w : world) :
  match r with
  | POST_root => products w `prefix_of` products (handle e r req w).2
  | PUT_id | DELETE_id | POST_id_adjust =>
      delete_id (params_id req) (products (handle e r req w).2)
      = delete_id (params_id req) (products w)
  end
  ∧ categories (handle e r req w).2 = categories w
  ∧ suppliers (handle e r req w).2 = suppliers w.
Proof.
  assert (∀ sets t, update_rows sets (params_id req) (products w) = Some t →
            delete_id (params_id req) t = delete_id (params_id req) (products w))
    as Hupd by (intros; by eapply update_rows_others).
  split; [| apply handlers_categories].
  destruct r; cbn [handle].
  - unfold add. crunch; cbn; try done; by apply prefix_app_r.
  - unfold update. crunch; cbn; eauto.
  - unfold delete. crunch; cbn; eauto using delete_id_idemp.
  - unfold adjust. destruct (get (body req) "delta"); try done.
    crunch; cbn; eauto.
Qed.

(** ** Generated ids *)

Lemma ids_ok_at_mono (t : list Products.row) (n n' : Z) :
  ids_ok_at t n → n ≤ n' → ids_ok_at t n'.
Proof.
  intros (H1 & H2 & H3) Hle. split_and!; [lia | done |].
  intros p Hp. specialize (H3 p Hp). lia.
Qed.

Lemma ids_ok_at_insert (t : list Products.row) (n : Z)
    (params : list jsval) (r : Products.row) :
  bind_row n params = Some r → ids_ok_at t n → ids_ok_at (t ++ [r]) (n + 1).
Proof.
  intros Hr (H1 & H2 & H3). apply bind_row_id in Hr. split_and!.
  - lia.
  - rewrite fmap_app. apply NoDup_app. split_and!; [done | | apply NoDup_singleton].
    intros i Hi Hi'. apply list_elem_of_fmap in Hi as (p & -> & Hp).
    apply list_elem_of_singleton in Hi'. specialize (H3 p Hp). cbn in Hi'. lia.
  - intros p Hp. apply elem_of_app in Hp as [Hp | Hp].
    + specialize (H3 p Hp). lia.
    + apply list_elem_of_singleton in Hp. subst p. lia.
Qed.

Lemma ids_ok_at_update (sets : list (string * jsval)) (i : Z)
    (t t' : list Products.row) (n : Z) :
  update_rows sets i t = Some t' → ids_ok_at t n → ids_ok_at t' n.
Proof.
  intros Hup (H1 & H2 & H3). apply update_rows_ids in Hup.
  split_and!; [done | by rewrite Hup |].
  intros p Hp.
  assert (Products.id p ∈ Products.id <$> t) as Hin
    by (rewrite <- Hup; by apply list_elem_of_fmap_2).
  apply list_elem_of_fmap in Hin as (p0 & -> & Hp0). by apply H3.
Qed.

Lemma ids_ok_at_delete (i : Z) (t : list Products.row) (n : Z) :
  ids_ok_at t n → ids_ok_at (delete_id i t) n.
Proof.
  intros (H1 & H2 & H3). split_and!; [done | |].
  - eapply sublist_NoDup; [exact H2 |].
    apply (fmap_sublist Products.id). unfold delete_id. apply sublist_filter.
  - intros p Hp. unfold delete_id in Hp.
    apply list_elem_of_filter in Hp as [_ Hp]. by apply H3.
Qed.

Lemma handle_keeps_ids (e : env) (r : route) (req : request) (w : world) :
  ids_ok w → ids_ok (handle e r req w).2.
Proof.
  unfold ids_ok. intros Hids.
  pose proof (ids_ok_at_mono _ _ (auto_increment w + 1) Hids ltac:(lia)) as H1.
  assert (∀ ps row, bind_row (auto_increment w) ps = Some row →
            ids_ok_at (products w ++ [row]) (auto_increment w + 1)) as H2
    by (intros; by eapply ids_ok_at_insert).
  assert (∀ sets i t, update_rows sets i (products w) = Some t →
            ids_ok_at t (auto_increment w)) as H3
    by (intros; by eapply ids_ok_at_update).
  pose proof (λ i, ids_ok_at_delete i _ _ Hids) as H4.
  destruct r; cbn [handle].
  - unfold add. crunch; cbn; eauto.
  - unfold update. crunch; cbn; eauto.
  - unfold delete. crunch; cbn; eauto.
  - unfold adjust. destruct (get (body req) "delta"); try done.
    crunch; cbn; eauto.
Qed.

Lemma fresh_ids (cats sups : list Z) : ids_ok (fresh cats sups).
Proof. split_and!; [done | constructor | by intros p Hp%elem_of_nil]. Qed.

(** In every world that requests lead to, whatever the store failed on the
    way, the ids of the live products are pairwise different, at least 1
    and below the next id to be generated: Add never reuses the id of a
    live product and Update never changes one. *)
Theorem reachable_ids (u : bool) (w : world) : reachable u w → ids_ok w.
Proof.
  induction 1 as [cats sups | w f r req _ IH].
  - apply fresh_ids.
  - by apply (handle_keeps_ids {| unique_sku := u; fails := f |}).
Qed.

Lemma reachable_ids_witness :
  ids_ok (handle (reliable true) POST_root (request_of 0 widget) (fresh [] [])).2.
Proof.
  apply (reachable_ids true).
  exact (reachable_step true (fresh [] []) no_faults POST_root
           (request_of 0 widget) (reachable_fresh true [] [])).
Defined.

(** ** [POST /]: what Add stores *)

Lemma truthy_text (s : string) : s ≠ "" → truthy (JStr s) = true.
Proof. intros H. unfold truthy. apply negb_true_iff. by apply String.eqb_neq. Qed.

Lemma select_sku_none (s : string) (t : list Products.row) :
  (∀ p, p ∈ t → Products.sku p ≠ s) → select_sku (JStr s) t = [].
Proof.
  intros H. unfold select_sku.
  destruct (filter _ t) as [|p rest] eqn:E; [done |].
  assert (p ∈ filter (λ r, JStr (Products.sku r) = JStr s) t) as Hp
    by (rewrite E; left).
  apply list_elem_of_filter in Hp as [Hs Hp]. destruct (H p Hp). congruence.
Qed.

Lemma select_sku_some (p : Products.row) (t : list Products.row) :
  p ∈ t → select_sku (JStr (Products.sku p)) t ≠ [].
Proof.
  intros Hp E.
  assert (p ∈ select_sku (JStr (Products.sku p)) t) as Hin
    by (unfold select_sku; by apply list_elem_of_filter).
  rewrite E in Hin. by apply elem_of_nil in Hin.
Qed.

(** The reference that the INSERT receives binds to [resolve]. *)
Lemma bind_reference (v : jsval) (ids : list Z) :
  bind_nullable bind_int
    (match select_ref (parseInt v) ids with
     | _ :: _ => of_parsed (parseInt v)
     | [] => JNull
     end)
  = Some (resolve v ids).
Proof.
  unfold resolve, select_ref. destruct (parseInt v) as [k|]; [| done]. cbn.
  destruct (filter (λ i, i = k) ids) as [|k' rest] eqn:E.
  - rewrite decide_False; [done |]. intros Hk.
    assert (k ∈ filter (λ i, i = k) ids) as Hin by by apply list_elem_of_filter.
    rewrite E in Hin. by apply elem_of_nil in Hin.
  - rewrite decide_True; [done |].
    assert (k' ∈ filter (λ i, i = k) ids) as Hin by (rewrite E; left).
    by apply list_elem_of_filter in Hin as [-> ?].
Qed.

Lemma bind_number_or_zero (q : Z) : bind_int (js_or (JNum q) (JNum 0)) = Some q.
Proof.
  unfold js_or, truthy. destruct (Z.eqb_spec q 0) as [-> | ?]; done.
Qed.

Lemma add_conflict_run
    (u : bool) (req : request) (w : world) (p : Products.row) :
  p ∈ products w →
  get (body req) "sku" = JStr (Products.sku p) →
  Products.sku p ≠ "" →
  truthy (get (body req) "product_name") = true →
  (add (reliable u) req w).1 = Conflict
  ∧ products (add (reliable u) req w).2 = products w
  ∧ inventory_audit (add (reliable u) req w).2 = inventory_audit w
  ∧ auto_increment (add (reliable u) req w).2 = auto_increment w
  ∧ trace (add (reliable u) req w).2 =
      trace w ++ [GetConnection; BeginTransaction; SelectProducts; Rollback;
                  Release].
Proof.
  intros Hp Hsku Hne Hname. unfold add.
  rewrite Hname, Hsku, (truthy_text _ Hne). exec.
  destruct (select_sku (JStr (Products.sku p)) (products w)) eqn:E;
    [by destruct (select_sku_some p (products w) Hp) |].
  exec. split_and!; try done. by rewrite <- !app_assoc.
Qed.

(** Add under a sku that a live product holds: 409 (ConflictError) after a
    rollback; no INSERT is sent, no row and no audit entry are made. *)
Theorem add_duplicate_sku_conflicts
    (u : bool) (req : request) (w : world) (p : Products.row) :
  p ∈ products w →
  get (body req) "sku" = JStr (Products.sku p) →
  Products.sku p ≠ "" →
  truthy (get (body req) "product_name") = true →
  (add (reliable u) req w).1 = Conflict
  ∧ products (add (reliable u) req w).2 = products w
  ∧ inventory_audit (add (reliable u) req w).2 = inventory_audit w
  ∧ auto_increment (add (reliable u) req w).2 = auto_increment w
  ∧ trace (add (reliable u) req w).2 =
      trace w ++ [GetConnection; BeginTransaction; SelectProducts; Rollback;
                  Release].
Proof. apply add_conflict_run. Qed.

Lemma add_duplicate_sku_conflicts_witness :
  let req := request_of 0 {[ "product_name" := JStr "Gadget";
                             "sku" := JStr "SKU-1" ]} in
  (add (reliable true) req shop).1 = Conflict
  ∧ products (add (reliable true) req shop).2 = products shop
  ∧ inventory_audit (add (reliable true) req shop).2 = inventory_audit shop
  ∧ auto_increment (add (reliable true) req shop).2 = auto_increment shop
  ∧ trace (add (reliable true) req shop).2 =
      trace shop ++ [GetConnection; BeginTransaction; SelectProducts; Rollback;
                     Release].
Proof.
  intros req.
  apply (add_duplicate_sku_conflicts true req shop
           (Products.Build_row 1 "Widget" "SKU-1" None None 5 10 None)).
  - apply (bool_decide_unpack _). by vm_compute.
  - reflexivity.
  - discriminate.
  - reflexivity.
Defined.

Lemma select_id_new (t : list Products.row) (n : Z) (r : Products.row) :
  ids_ok_at t n → Products.id r = n → select_id n (t ++ [r]) = [r].
Proof.
  intros (_ & _ & H) Hr. unfold select_id. rewrite filter_app.
  rewrite (filter_cons_True _ r []) by done.
  replace (filter (λ r0, Products.id r0 = n) t) with (@nil Products.row); [done |].
  symmetry. destruct (filter _ t) as [|p rest] eqn:E; [done |].
  assert (p ∈ filter (λ r0, Products.id r0 = n) t) as Hp by (rewrite E; left).
  apply list_elem_of_filter in Hp as [Hid Hp]. specialize (H p Hp). lia.
Qed.

Lemma add_run
    (u : bool) (req : request) (w : world)
    (n s : string) (q pr : Z) (loc : option string) :
  index_holds u w →
  get (body req) "product_name" = JStr n → n ≠ "" →
  get (body req) "sku" = JStr s → s ≠ "" →
  (∀ p, p ∈ products w → Products.sku p ≠ s) →
  get_default (body req) "quantity" (JNum 0) = JNum q →
  get_default (body req) "price" (JNum 0) = JNum pr →
  bind_nullable bind_text (js_or (get (body req) "location") JNull) = Some loc →
  (add (reliable u) req w).1 = Created (auto_increment w)
  ∧ products (add (reliable u) req w).2
    = products w ++ [new_row (auto_increment w) (body req) w n s q pr loc]
  ∧ auto_increment (add (reliable u) req w).2 = auto_increment w + 1
  ∧ inventory_audit (add (reliable u) req w).2
    = inventory_audit w ++
        [Audit.Build_row (js_or (JNum (auto_increment w)) JNull) "ADD"
           (js_or (get (body req) "changed_by") (JStr "system"))
           (JSON_stringify
              [("product_name", JVal (JStr n)); ("sku", JVal (JStr s));
               ("quantity", JVal (JNum q)); ("price", JVal (JNum pr));
               ("location", JVal (get (body req) "location"))])]
  ∧ index_holds u (add (reliable u) req w).2.
Proof.
  intros Hidx Hn Hn' Hs Hs' Hfresh Hq Hp Hloc. unfold add.
  rewrite Hn, Hs, Hq, Hp, (truthy_text _ Hn'), (truthy_text _ Hs'). exec.
  rewrite (select_sku_none _ _ Hfresh). exec.
  unfold bind_row.
  rewrite !bind_reference, !bind_number_or_zero, Hloc. cbn.
  assert (NoDup (Products.sku <$>
                   products w ++
                   [new_row (auto_increment w) (body req) w n s q pr loc])
          ↔ NoDup (Products.sku <$> products w)) as Hdup.
  { rewrite fmap_app, NoDup_app. cbn. split; [by intros (? & _ & _) |].
    intros H. split_and!; [done | | apply NoDup_singleton].
    intros s0 Hin Hin'. apply list_elem_of_singleton in Hin'. subst s0.
    apply list_elem_of_fmap in Hin as (p0 & Hs0 & Hp0).
    by destruct (Hfresh p0 Hp0). }
  unfold new_row in Hdup.
  assert (sku_index_ok (reliable u)
            (products w ++
             [Products.Build_row (auto_increment w) n s
                (resolve (get (body req) "category_id") (categories w))
                (resolve (get (body req) "supplier_id") (suppliers w))
                q pr loc]) = true) as ->.
  { apply sku_index_ok_spec. intros Hu. apply Hdup. by apply Hidx. }
  exec. split_and!; try done.
  unfold index_holds. cbn. intros Hu. apply Hdup. by apply Hidx.
Qed.



(** ** [GET /:id] *)

Lemma same_id_same_row (t : list Products.row) (a b : Products.row) :
  NoDup (Products.id <$> t) → a ∈ t → b ∈ t →
  Products.id a = Products.id b → a = b.
Proof.
  induction t as [|r t IH]; intros Hnd Ha Hb Hid; [by apply elem_of_nil in Ha |].
  rewrite fmap_cons in Hnd. apply NoDup_cons in Hnd as [Hr Hnd].
  apply elem_of_cons in Ha as [-> | Ha]; apply elem_of_cons in Hb as [-> | Hb].
  - done.
  - destruct Hr. rewrite Hid. by apply list_elem_of_fmap_2.
  - destruct Hr. rewrite <- Hid. by apply list_elem_of_fmap_2.
  - by apply IH.
Qed.

Lemma get_product_answer (u : bool) (req : request) (w : world) :
  (get_product (reliable u) req w).1
  = match select_id (params_id req) (products w) with
    | [] => NoRow
    | row0 :: _ => Row row0
    end.
Proof.
  unfold get_product, try_catch, pool_select. exec.
  by destruct (select_id (params_id req) (products w)).
Qed.

(** [GET /:id] is a lookup by id that writes nothing.  Whatever the store
    fails, the tables are as before.  Served by a store that fails nothing,
    the answer is 404 exactly when no live product has the id, and, the ids
    being pairwise different, it is 200 with a row exactly when that row is
    the live product with the id. *)
Theorem get_product_is_a_lookup (e : env) (u : bool) (req : request) (w : world) :
  (products (get_product e req w).2 = products w
   ∧ inventory_audit (get_product e req w).2 = inventory_audit w
   ∧ auto_increment (get_product e req w).2 = auto_increment w
   ∧ conn (get_product e req w).2 = conn w)
  ∧ ((get_product (reliable u) req w).1 = NoRow
     ↔ ∀ p, p ∈ products w → Products.id p ≠ params_id req)
  ∧ (NoDup (Products.id <$> products w) →
     ∀ r, (get_product (reliable u) req w).1 = Row r
          ↔ r ∈ products w ∧ Products.id r = params_id req).
Proof.
  split_and!.
  - unfold get_product, try_catch, pool_select. crunch.
  - unfold get_product, try_catch, pool_select. crunch.
  - unfold get_product, try_catch, pool_select. crunch.
  - unfold get_product, try_catch, pool_select. crunch.
  - rewrite get_product_answer.
    destruct (select_id (params_id req) (products w)) as [|r0 rest] eqn:E.
    + split; [intros _ p Hp Hid | done].
      assert (p ∈ select_id (params_id req) (products w)) as Hin
        by (unfold select_id; by apply list_elem_of_filter).
      rewrite E in Hin. by apply elem_of_nil in Hin.
    + split; [done | intros H]. exfalso.
      assert (r0 ∈ select_id (params_id req) (products w)) as Hin
        by (rewrite E; left).
      apply list_elem_of_filter in Hin as [Hid Hin]. by destruct (H r0 Hin).
  - intros Hnd r. rewrite get_product_answer.
    destruct (select_id (params_id req) (products w)) as [|r0 rest] eqn:E.
    + split; [done | intros [Hr Hid]].
      assert (r ∈ select_id (params_id req) (products w)) as Hin
        by (unfold select_id; by apply list_elem_of_filter).
      rewrite E in Hin. by apply elem_of_nil in Hin.
    + assert (r0 ∈ select_id (params_id req) (products w)) as Hin
        by (rewrite E; left).
      apply list_elem_of_filter in Hin as [Hid0 Hin0].
      split.
      * by intros [= <-].
      * intros [Hr Hid]. f_equal.
        apply (same_id_same_row (products w)); [done .. | congruence].
Qed.

Lemma get_product_is_a_lookup_witness :
  (get_product (reliable true) (request_of 1 ∅) shop).1
  = Row (Products.Build_row 1 "Widget" "SKU-1" None None 5 10 None).
Proof.
  apply (proj2 (proj2 (get_product_is_a_lookup (reliable true) true
                         (request_of 1 ∅) shop))).
  - apply (bool_decide_unpack _). by vm_compute.
  - split; [apply (bool_decide_unpack _); by vm_compute | reflexivity].
Defined.

(** ** How the operations compose *)


Lemma shop_ids : ids_ok shop.
Proof.
  assert (shop = (handle (reliable true) POST_root (request_of 0 widget)
                    (fresh [] [])).2) as -> by (vm_compute; reflexivity).
  apply (handle_keeps_ids (reliable true)), fresh_ids.
Defined.


Lemma delete_ok_rows (e : env) (req : request) (w : world) :
  (delete e req w).1 = Ok →
  products (delete e req w).2 = delete_id (params_id req) (products w).
Proof. unfold delete. crunch. Qed.

Lemma adjust_missing_run (u : bool) (req : request) (w : world) (d : Z) :
  get (body req) "delta" = JNum d →
  select_id (params_id req) (products w) = [] →
  (adjust (reliable u) req w).1 = NotFound
  ∧ products (adjust (reliable u) req w).2 = products w
  ∧ inventory_audit (adjust (reliable u) req w).2 = inventory_audit w.
Proof. intros Hd Hsel. unfold adjust. rewrite Hd. exec. by rewrite Hsel. Qed.

Lemma delete_missing_run (u : bool) (req : request) (w : world) :
  select_id (params_id req) (products w) = [] →
  (delete (reliable u) req w).1 = NotFound.
Proof. intros Hsel. unfold delete. exec. by rewrite Hsel. Qed.

(** Once Delete has answered 200, whatever the store failed on the way,
    the id is gone for every later request: [GET /:id] answers 404, a
    second Delete answers 404, and so does an adjustment. *)
Theorem deleted_product_is_gone
    (e : env) (u : bool) (req later : request) (w : world) (d : Z) :
  (delete e req w).1 = Ok →
  params_id later = params_id req →
  get (body later) "delta" = JNum d →
  (get_product (reliable u) later (delete e req w).2).1 = NoRow
  ∧ (delete (reliable u) later (delete e req w).2).1 = NotFound
  ∧ (adjust (reliable u) later (delete e req w).2).1 = NotFound.
Proof.
  intros Hok Hid Hd.
  assert (select_id (params_id later) (products (delete e req w).2) = []) as Hgone
    by (rewrite (delete_ok_rows _ _ _ Hok), Hid; apply select_id_delete_id).
  split_and!.
  - by rewrite get_product_answer, Hgone.
  - by apply delete_missing_run.
  - by apply (adjust_missing_run u later _ d).
Qed.

Lemma deleted_product_is_gone_witness :
  (get_product (reliable true) (request_of 1 {[ "delta" := JNum 1 ]})
     (delete (reliable true) (request_of 1 ∅) shop).2).1 = NoRow
  ∧ (delete (reliable true) (request_of 1 {[ "delta" := JNum 1 ]})
       (delete (reliable true) (request_of 1 ∅) shop).2).1 = NotFound
  ∧ (adjust (reliable true) (request_of 1 {[ "delta" := JNum 1 ]})
       (delete (reliable true) (request_of 1 ∅) shop).2).1 = NotFound.
Proof.
  apply (deleted_product_is_gone (reliable true) true (request_of 1 ∅)
           (request_of 1 {[ "delta" := JNum 1 ]}) shop 1).
  - by vm_compute.
  - reflexivity.
  - reflexivity.
Defined.

(** ** [POST /:id/adjust]: errors, and what a 200 means *)

(** A [delta] that is not a number (absent, null, a boolean, a string,
    even a numeric one) is answered 400 and the store is not reached. *)
Theorem adjust_rejects_non_number (e : env) (req : request) (w : world) :
  is_number (get (body req) "delta") = false →
  adjust e req w = (BadRequest, w).
Proof. intros H. unfold adjust. by destruct (get (body req) "delta"). Qed.

Lemma adjust_rejects_non_number_witness :
  adjust (reliable true) (request_of 1 {[ "delta" := JStr "5" ]}) shop
  = (BadRequest, shop).
Proof.
  apply (adjust_rejects_non_number (reliable true)
           (request_of 1 {[ "delta" := JStr "5" ]}) shop).
  reflexivity.
Defined.

(** An adjustment of an id that no live product has is answered 404, and
    neither the products nor the audit log change. *)
Theorem adjust_missing_id_not_found
    (u : bool) (req : request) (w : world) (d : Z) :
  get (body req) "delta" = JNum d →
  select_id (params_id req) (products w) = [] →
  (adjust (reliable u) req w).1 = NotFound
  ∧ products (adjust (reliable u) req w).2 = products w
  ∧ inventory_audit (adjust (reliable u) req w).2 = inventory_audit w.
Proof. apply adjust_missing_run. Qed.

Lemma adjust_missing_id_not_found_witness :
  (adjust (reliable true) (request_of 7 {[ "delta" := JNum 1 ]}) shop).1 = NotFound
  ∧ products (adjust (reliable true) (request_of 7 {[ "delta" := JNum 1 ]}) shop).2
    = products shop
  ∧ inventory_audit
      (adjust (reliable true) (request_of 7 {[ "delta" := JNum 1 ]}) shop).2
    = inventory_audit shop.
Proof.
  apply (adjust_missing_id_not_found true
           (request_of 7 {[ "delta" := JNum 1 ]}) shop 1).
  - reflexivity.
  - reflexivity.
Defined.



(** ** [PUT /:id]: a missing id, and what a 200 means *)

Arguments column : simpl never.
Arguments merged : simpl never.



Lemma assign_column (r r' : Products.row) (c : string) (v : jsval) :
  assign r c v = Some r' →
  ∀ col, column r' col = if decide (col = c) then v else column r col.
Proof.
  destruct r. unfold assign. intros Hassign col.
  repeat case_decide; subst; try done;
    destruct v; simplify_option_eq;
    unfold column; cbn; repeat case_decide; by simplify_eq.
Qed.

Lemma assign_all_column (sets : list (string * jsval)) (r r' : Products.row) :
  NoDup sets.*1 →
  assign_all r sets = Some r' →
  (∀ col v, (col, v) ∈ sets → column r' col = v)
  ∧ (∀ col, col ∉ sets.*1 → column r' col = column r col).
Proof.
  revert r. induction sets as [|[c v] sets IH]; intros r Hnd H; cbn in H.
  - simplify_eq. split; [by intros ?? ?%elem_of_nil | done].
  - destruct (assign r c v) as [r1|] eqn:E; [| done]. cbn in H.
    rewrite fmap_cons in Hnd. apply NoDup_cons in Hnd as [Hc Hnd].
    destruct (IH r1 Hnd H) as [IH1 IH2].
    pose proof (assign_column _ _ _ _ E) as Hcol. split.
    + intros col v' [[= -> ->] | Hin]%elem_of_cons.
      * rewrite IH2 by done. rewrite Hcol. by rewrite decide_True.
      * by apply IH1.
    + intros col Hcol'. cbn in Hcol'. apply not_elem_of_cons in Hcol' as [Hne Hcol'].
      rewrite IH2 by done. rewrite Hcol. by rewrite decide_False.
Qed.

Lemma collect_keys_sublist (b : jsobject) (keys : list string) :
  (omap (λ key, pair key <$> b !! key) keys).*1 `sublist_of` keys.
Proof.
  induction keys as [|key keys IH]; [done |]. cbn.
  destruct (b !! key); cbn; by constructor.
Qed.

Lemma collect_keys_NoDup (b : jsobject) : NoDup (collect b).*1.
Proof.
  rewrite collect_omap. eapply sublist_NoDup; [| apply collect_keys_sublist].
  apply (bool_decide_unpack _). by vm_compute.
Qed.

Lemma update_ok_rows (e : env) (req : request) (w : world) :
  (update e req w).1 = Ok →
  update_rows (collect (body req)) (params_id req) (products w)
  = Some (products (update e req w).2).
Proof. unfold update. crunch. Qed.



(** ** Connections and transactions *)


(** ** [GET /]: the listing *)

Arguments listed_of : simpl never.
Arguments joined : simpl never.

#[global] Instance newer_first_total : Total newer_first.
Proof. intros a b. unfold newer_first. lia. Qed.

#[global] Instance newer_first_trans : Transitive newer_first.
Proof. intros a b c. unfold newer_first. lia. Qed.

Lemma select_ref_key (ids : list Z) (ref : option Z) :
  NoDup ids →
  select_ref ref ids
  = match ref with
    | Some k => if decide (k ∈ ids) then [k] else []
    | None => []
    end.
Proof.
  intros Hnd. unfold select_ref. destruct ref as [k|]; [| done].
  induction Hnd as [|i ids Hi _ IH]; [done |].
  destruct (decide (i = k)) as [-> | Hne].
  - rewrite filter_cons_True by done. rewrite decide_True by left.
    f_equal. rewrite IH. by rewrite decide_False.
  - rewrite filter_cons_False by done. rewrite IH.
    destruct (decide (k ∈ ids)) as [Hk | Hk].
    + rewrite decide_True; [done | by right].
    + rewrite decide_False; [done |]. intros [? | ?]%elem_of_cons; congruence.
Qed.

(** With ids as keys, the joins neither drop nor repeat a product. *)
Lemma joined_by_key (nm : names) (w : world) :
  NoDup (categories w) → NoDup (suppliers w) →
  joined nm w = listed_of nm w <$> products w.
Proof.
  intros Hc Hs. unfold joined.
  induction (products w) as [|p t IH]; [done |].
  rewrite bind_cons, IH, fmap_cons. cbn beta.
  rewrite !select_ref_key by done.
  unfold listed_of, named.
  destruct (Products.category_id p) as [c|], (Products.supplier_id p) as [s|];
    cbn; repeat case_decide; done.
Qed.

Lemma list_products_answer (u : bool) (nm : names) (w : world) :
  (list_products (reliable u) nm w).1
  = Rows (merge_sort newer_first (joined nm w)).
Proof. unfold list_products, try_catch, pool_select. by exec. Qed.

(** [GET /] writes nothing, whatever the store fails.  Served by a store
    that fails nothing, with ids as keys of [categories] and [suppliers],
    it answers every live product exactly once, each with the names of the
    category and supplier it refers to ([NULL] for no or a dangling
    reference), ordered by id from the highest down. *)
Theorem list_products_lists_every_product
    (e : env) (u : bool) (nm : names) (w : world) :
  (products (list_products e nm w).2 = products w
   ∧ inventory_audit (list_products e nm w).2 = inventory_audit w
   ∧ auto_increment (list_products e nm w).2 = auto_increment w
   ∧ conn (list_products e nm w).2 = conn w)
  ∧ (NoDup (categories w) → NoDup (suppliers w) →
     ∃ rows, (list_products (reliable u) nm w).1 = Rows rows
             ∧ rows ≡ₚ listed_of nm w <$> products w
             ∧ StronglySorted newer_first rows).
Proof.
  split_and!.
  - unfold list_products, try_catch, pool_select. crunch.
  - unfold list_products, try_catch, pool_select. crunch.
  - unfold list_products, try_catch, pool_select. crunch.
  - unfold list_products, try_catch, pool_select. crunch.
  - intros Hc Hs. eexists. split; [apply list_products_answer |].
    rewrite (joined_by_key nm w Hc Hs). split.
    + apply merge_sort_Permutation.
    + apply (StronglySorted_merge_sort _).
Qed.

Lemma list_products_lists_every_product_witness :
  ∃ rows,
    (list_products (reliable true)
       {| category_name := λ _, "c"; supplier_name := λ _, "s" |} shop).1
    = Rows rows
    ∧ rows ≡ₚ listed_of {| category_name := λ _, "c"; supplier_name := λ _, "s" |}
                shop <$> products shop
    ∧ StronglySorted newer_first rows.
Proof.
  apply (proj2 (list_products_lists_every_product (reliable true) true
                  {| category_name := λ _, "c"; supplier_name := λ _, "s" |} shop)).
  - apply (bool_decide_unpack _). by vm_compute.
  - apply (bool_decide_unpack _). by vm_compute.
Defined.

(** The head of a list ordered from the highest id down has the highest id. *)
Lemma newest_is_first (rows : list listed) (x : listed) :
  StronglySorted newer_first rows → x ∈ rows →
  ∃ first rest, rows = first :: rest
                ∧ Products.id (product x) ≤ Products.id (product first).
Proof.
  intros Hsorted Hx. destruct rows as [|first rest]; [by apply elem_of_nil in Hx |].
  exists first, rest. split; [done |].
  apply elem_of_cons in Hx as [-> | Hx]; [done |].
  apply StronglySorted_inv in Hsorted as [_ Hall].
  rewrite Forall_forall in Hall. by apply Hall.
Qed.



(** ** [authenticate] *)

Lemma split_space_spaceless (s : string) :
  spaceless s = true → split_space s = [s].
Proof.
  induction s as [|c s IH]; [done |]. cbn [split_space spaceless].
  intros [Hc Hs]%andb_true_iff. apply negb_true_iff in Hc.
  by rewrite Hc, (IH Hs).
Qed.

Lemma append_cons (c : ascii) (s t : string) :
  String c s +:+ t = String c (s +:+ t).
Proof. reflexivity. Qed.

Lemma split_space_at_space (a rest : string) :
  spaceless a = true →
  split_space (a +:+ String " " rest) = a :: split_space rest.
Proof.
  induction a as [|c a IH]; [done |]. rewrite append_cons. cbn [split_space spaceless].
  intros [Hc Ha]%andb_true_iff. apply negb_true_iff in Hc.
  by rewrite Hc, (IH Ha).
Qed.

Lemma append_empty (s : string) : s +:+ "" = s.
Proof. induction s as [|c s IH]; [done |]. by rewrite append_cons, IH. Qed.

Lemma second_word (a tok : string) (rest : option string) :
  spaceless a = true → spaceless tok = true →
  split_space (a +:+ String " " (tok +:+ tail_of rest)) !! 1%nat = Some tok.
Proof.
  intros Ha Htok. rewrite split_space_at_space by done.
  destruct rest as [more|]; cbn [tail_of].
  - by rewrite split_space_at_space.
  - by rewrite append_empty, split_space_spaceless.
Qed.

Lemma header_with_space_not_empty (a rest : string) :
  String.eqb (a +:+ String " " rest) "" = false.
Proof. by destruct a. Qed.

Lemma authenticate_on_header {payload} (verify : string → option payload)
    (a tok : string) (rest : option string) :
  spaceless a = true → spaceless tok = true →
  authenticate verify (Some (a +:+ String " " (tok +:+ tail_of rest)))
  = if decide (tok = "") then Rejected 401 "Malformed token"
    else match verify tok with
         | Some user => Next user
         | None => Rejected 403 "Invalid token"
         end.
Proof.
  intros Ha Htok. unfold authenticate.
  rewrite header_with_space_not_empty, second_word by done.
  by destruct tok.
Qed.

(** The first piece of a string split at spaces, and what follows it. *)
Lemma first_word (h tok : string) :
  split_space h !! 0%nat = Some tok →
  ∃ rest, h = tok +:+ tail_of rest ∧ spaceless tok = true.
Proof.
  revert tok. induction h as [|c h IH]; intros tok; cbn [split_space].
  - intros [= <-]. by exists None.
  - destruct (Ascii.eqb c " ") eqn:Ec.
    + apply Ascii.eqb_eq in Ec as ->. intros [= <-]. by exists (Some h).
    + destruct (split_space h) as [|piece pieces] eqn:E.
      * intros [= <-]. destruct h as [|c' h]; cbn [split_space] in E;
          [done | by destruct (Ascii.eqb c' " "), (split_space h)].
      * intros [= <-]. destruct (IH piece eq_refl) as (rest & -> & Hp).
        exists rest. rewrite append_cons. cbn [spaceless]. by rewrite Ec, Hp.
Qed.

Lemma second_word_inv (h tok : string) :
  split_space h !! 1%nat = Some tok →
  ∃ a rest, h = a +:+ String " " (tok +:+ tail_of rest)
            ∧ spaceless a = true ∧ spaceless tok = true.
Proof.
  induction h as [|c h IH]; cbn [split_space]; [done |].
  destruct (Ascii.eqb c " ") eqn:Ec.
  - apply Ascii.eqb_eq in Ec as ->. intros Hfirst.
    destruct (first_word h tok Hfirst) as (rest & -> & Htok).
    by exists "", rest.
  - destruct (split_space h) as [|piece pieces] eqn:E; [done |].
    intros Hsecond. destruct (IH Hsecond) as (a & rest & -> & Ha & Htok).
    exists (String c a), rest. rewrite append_cons. cbn [spaceless]. by rewrite Ec, Ha.
Qed.

(** The outcomes of [authenticate], by the shape of the Authorization
    header.  With no header, or an empty one, the answer is 401 "No
    token".  A header without a space is answered 401 "Malformed token".
    Otherwise the token is what stands between the first space and the
    next one (or the end): an empty token is answered 401 "Malformed
    token" (so is a header with two spaces after the scheme), any other is
    handed to [jwt.verify], whose error gives 403 and whose payload is
    passed on with [next()].  The word before the first space is not
    looked at, and nothing after the token is. *)
Theorem authenticate_reads_the_second_word {payload}
    (verify : string → option payload) (a tok : string) (rest : option string) :
  authenticate verify None = Rejected 401 "No token"
  ∧ authenticate verify (Some "") = Rejected 401 "No token"
  ∧ (spaceless a = true → a ≠ "" →
     authenticate verify (Some a) = Rejected 401 "Malformed token")
  ∧ (spaceless a = true → spaceless tok = true →
     authenticate verify (Some (a +:+ String " " (tok +:+ tail_of rest)))
     = if decide (tok = "") then Rejected 401 "Malformed token"
       else match verify tok with
            | Some user => Next user
            | None => Rejected 403 "Invalid token"
            end).
Proof.
  split_and!; [done | done | | apply authenticate_on_header].
  intros Ha Hne. unfold authenticate.
  rewrite split_space_spaceless by done.
  destruct a; [done |]. done.
Qed.

Lemma authenticate_reads_the_second_word_witness :
  authenticate (λ t, if String.eqb t "abc" then Some 7 else None) (Some "Bearer")
  = Rejected 401 "Malformed token"
  ∧ authenticate (λ t, if String.eqb t "abc" then Some 7 else None)
      (Some ("Basic" +:+ String " " ("abc" +:+ tail_of (Some "x y"))))
    = if decide ("abc" = "") then Rejected 401 "Malformed token"
      else match (if String.eqb "abc" "abc" then Some 7 else None) with
           | Some user => Next user
           | None => Rejected 403 "Invalid token"
           end.
Proof.
  split.
  - apply (proj1 (proj2 (proj2 (authenticate_reads_the_second_word
                                  (λ t, if String.eqb t "abc" then Some 7 else None)
                                  "Bearer" "abc" None)))).
    + reflexivity.
    + discriminate.
  - apply (proj2 (proj2 (proj2 (authenticate_reads_the_second_word
                                  (λ t, if String.eqb t "abc" then Some 7 else None)
                                  "Basic" "abc" (Some "x y"))))).
    + reflexivity.
    + reflexivity.
Defined.

(** [authenticate] calls [next()] with a payload exactly when the header
    has a non-empty token between its first space and the next one (or the
    end) and [jwt.verify] returns that payload for it: no request goes on
    with a token that was not verified. *)
Theorem authenticate_next_iff_verified {payload}
    (verify : string → option payload) (authorization : option string)
    (user : payload) :
  authenticate verify authorization = Next user
  ↔ ∃ a tok rest,
      authorization = Some (a +:+ String " " (tok +:+ tail_of rest))
      ∧ spaceless a = true ∧ spaceless tok = true
      ∧ tok ≠ "" ∧ verify tok = Some user.
Proof.
  split.
  - unfold authenticate. destruct authorization as [h|]; [| done].
    destruct (String.eqb h ""); [done |].
    destruct (split_space h !! 1%nat) as [tok|] eqn:E; [| done].
    destruct (second_word_inv _ _ E) as (a & rest & -> & Ha & Htok).
    destruct tok as [|c tok]; [done |].
    destruct (verify (String c tok)) as [p|] eqn:Ev; [| done].
    intros [= ->]. by exists a, (String c tok), rest.
  - intros (a & tok & rest & -> & Ha & Htok & Hne & Hv).
    rewrite authenticate_on_header by done.
    rewrite decide_False by done. by rewrite Hv.
Qed.

(** ** The audit log *)

(** The audit log only grows, and by at most one entry per request: no
    handler, whatever its answer and whatever the store fails, changes or
    removes an entry that is there; the reading routes add none. *)
Theorem audit_log_is_append_only
    (e : env) (r : route) (req : request) (nm : names) (w : world) :
  (∃ added, inventory_audit (handle e r req w).2 = inventory_audit w ++ added
            ∧ (length added ≤ 1)%nat)
  ∧ inventory_audit (get_product e req w).2 = inventory_audit w
  ∧ inventory_audit (list_products e nm w).2 = inventory_audit w.
Proof.
  split_and!.
  - destruct r; cbn [handle].
    + unfold add.
      crunch;
        first [ exists []; rewrite app_nil_r; split; [done | cbn; lia]
              | eexists [_]; split; [done | cbn; lia] ].
    + unfold update.
      crunch;
        first [ exists []; rewrite app_nil_r; split; [done | cbn; lia]
              | eexists [_]; split; [done | cbn; lia] ].
    + unfold delete.
      crunch;
        first [ exists []; rewrite app_nil_r; split; [done | cbn; lia]
              | eexists [_]; split; [done | cbn; lia] ].
    + unfold adjust.
      destruct (get (body req) "delta");
        try (exists []; rewrite app_nil_r; split; [done | cbn; lia]).
      crunch;
        first [ exists []; rewrite app_nil_r; split; [done | cbn; lia]
              | eexists [_]; split; [done | cbn; lia] ].
  - unfold get_product, try_catch, pool_select. crunch.
  - unfold list_products, try_catch, pool_select. crunch.
Qed.

(** ** [PUT /:id]: a product's own sku *)

Lemma update_rows_same (sets : list (string * jsval)) (i : Z)
    (t : list Products.row) :
  (∀ r, r ∈ t → Products.id r = i → assign_all r sets = Some r) →
  update_rows sets i t = Some t.
Proof.
  induction t as [|r t IH]; intros H; [done |]. cbn.
  rewrite IH by (intros r' Hr'; apply H; by right).
  case_decide as E; [| done]. by rewrite (H r (list_elem_of_here _ _) E).
Qed.

Lemma collect_only_sku (v : jsval) :
  collect {[ "sku" := v ]} = [("sku", v)].
Proof.
  rewrite collect_omap. unfold allowed. cbn [omap list_omap].
  rewrite lookup_singleton_eq.
  by rewrite !lookup_singleton_ne by done.
Qed.

(** The duplicate check leaves the product itself out ([id <> ?]): an
    Update that submits the sku the product already has, and nothing else,
    is no conflict.  It is answered 200, the rows are as before, and one
    UPDATE entry is logged. *)
Theorem update_own_sku_is_no_conflict
    (u : bool) (req : request) (w : world) (p : Products.row) :
  ids_ok w →
  index_holds u w →
  p ∈ products w →
  Products.id p = params_id req →
  Products.sku p ≠ "" →
  (∀ p', p' ∈ products w → Products.sku p' = Products.sku p →
         Products.id p' = Products.id p) →
  body req = {[ "sku" := JStr (Products.sku p) ]} →
  (update (reliable u) req w).1 = Ok
  ∧ products (update (reliable u) req w).2 = products w
  ∧ ∃ entry, inventory_audit (update (reliable u) req w).2
             = inventory_audit w ++ [entry]
             ∧ Audit.action entry = "UPDATE".
Proof.
  intros Hids Hidx Hp Hid Hne Hother Hbody. unfold update. rewrite Hbody.
  rewrite collect_only_sku.
  assert (get {[ "sku" := JStr (Products.sku p) ]} "sku" = JStr (Products.sku p))
    as -> by (unfold get; by rewrite lookup_singleton_eq).
  rewrite (truthy_text _ Hne). cbn [length Nat.eqb]. exec.
  assert (select_sku_other (JStr (Products.sku p)) (params_id req) (products w)
          = []) as ->.
  { unfold select_sku_other. destruct (filter _ _) as [|p' rest] eqn:E; [done |].
    assert (p' ∈ filter (λ r, JStr (Products.sku r) = JStr (Products.sku p)
                              ∧ Products.id r ≠ params_id req) (products w))
      as Hp' by (rewrite E; left).
    apply list_elem_of_filter in Hp' as [[[= Hs] Hneq] Hp'].
    destruct Hneq. rewrite <- Hid. by apply Hother. }
  exec.
  rewrite (update_rows_same _ _ (products w)).
  - assert (sku_index_ok (reliable u) (products w) = true) as ->
      by by apply sku_index_ok_spec.
    assert (select_id (params_id req) (products w) ≠ []) as Hsel.
    { intros E. assert (p ∈ select_id (params_id req) (products w)) as Hin
        by (unfold select_id; by apply list_elem_of_filter).
      rewrite E in Hin. by apply elem_of_nil in Hin. }
    destruct (select_id (params_id req) (products w)); [done |].
    exec. split_and!; [done | done |]. by eexists.
  - intros r Hr Hrid.
    assert (r = p) as ->
      by (apply (same_id_same_row (products w)); [apply Hids | done .. | congruence]).
    by destruct p.
Qed.

Lemma update_own_sku_is_no_conflict_witness :
  (update (reliable true) (request_of 1 {[ "sku" := JStr "SKU-1" ]}) shop).1 = Ok
  ∧ products (update (reliable true) (request_of 1 {[ "sku" := JStr "SKU-1" ]}) shop).2
    = products shop
  ∧ ∃ entry,
      inventory_audit
        (update (reliable true) (request_of 1 {[ "sku" := JStr "SKU-1" ]}) shop).2
      = inventory_audit shop ++ [entry]
      ∧ Audit.action entry = "UPDATE".
Proof.
  apply (update_own_sku_is_no_conflict true
           (request_of 1 {[ "sku" := JStr "SKU-1" ]}) shop
           (Products.Build_row 1 "Widget" "SKU-1" None None 5 10 None)).
  - exact shop_ids.
  - exact shop_index.
  - apply (bool_decide_unpack _). by vm_compute.
  - reflexivity.
  - discriminate.
  - intros p' Hp' _.
    change (products shop)
      with [Products.Build_row 1 "Widget" "SKU-1" None None 5 10 None] in Hp'.
    by apply list_elem_of_singleton in Hp' as ->.
  - reflexivity.
Defined.
